(** * Adversarial training "for free": a model of [main.py]

    The script trains a PreAct-ResNet18 with a persistent perturbation
    buffer [delta] that is updated by sign-gradient ascent while the
    classifier weights are updated by SGD, evaluates the network under
    PGD/FGSM attacks and keeps the best checkpoint on disk.

    The embedding follows the script statement by statement.  Everything
    the script delegates to PyTorch, torchvision and advertorch (the
    network, autograd, the optimiser, the attacks, the data loaders) is an
    operation of the interface [Torch]; the script's own globals
    ([delta], [max_acc], [start_epoch]), the checkpoint directory and the
    order of the library calls are modelled explicitly.

    Tensor elements and accuracies are exact rationals: the rounding,
    infinities and NaN of the library's floats are outside the model, and
    so is the RuntimeError of torch for an [--epsilon] beyond the range
    of float32.

    Of the file system the model tracks which paths are directories and
    which hold a checkpoint, by the path as the script spells it.
    [os.mkdir] and [torch.save] fail as the operating system makes them
    fail for a name that exists, a missing directory or a directory in
    the place of the file; permissions, links, a full disk, and a
    directory or an unreadable file at a path that [torch.load] reads
    are outside the model.
    Console output (the prints and the progress bar) and the placement of
    tensors on a device are left out, except that the accuracies the
    script prints are recorded in the log. *)

From Stdlib Require Import Ascii QArith Qminmax Lqa.
From stdpp Require Import gmap strings list list_numbers pretty.

Open Scope Q_scope.

(** ** Tensors *)

Module Tensor.

(** A dense tensor: its shape and its elements in row-major order. *)
Record t := mk { shape : list Z; data : list Q }.

Definition numel (sh : list Z) : Z := foldr Z.mul 1%Z sh.

(** [torch.zeros] at the shape [sh] *)
Definition zeros (sh : list Z) : t :=
  mk sh (replicate (Z.to_nat (numel sh)) 0).

(** Elementwise operations.  The binary ones are only ever applied to
    tensors of one shape (the training loader drops the last incomplete
    batch, so [inputs], [delta] and [adv.grad] all have shape
    (batch_size, 3, 32, 32)); broadcasting is not modelled. *)
Definition map (f : Q -> Q) (x : t) : t := mk (shape x) (f <$> data x).
Definition map2 (f : Q -> Q -> Q) (x y : t) : t :=
  mk (shape x) (zip_with f (data x) (data y)).

(** [x + y] *)
Definition add : t -> t -> t := map2 Qplus.
(** [c * x] for a Python scalar [c] *)
Definition scale (c : Q) : t -> t := map (Qmult c).

(** [torch.sign]: [(0 < a) - (a < 0)] *)
Definition sgn (a : Q) : Q :=
  match a ?= 0 with Gt => 1 | Eq => 0 | Lt => -1 end.
Definition sign : t -> t := map sgn.

(** [torch.clamp(x, lo, hi)]: [min(max(x, lo), hi)] elementwise *)
Definition clamp1 (lo hi a : Q) : Q := Qmin (Qmax a lo) hi.
Definition clamp (x : t) (lo hi : Q) : t := map (clamp1 lo hi) x.

(** Every element satisfies [P]. *)
Definition all (P : Q -> Prop) (x : t) : Prop := Forall P (data x).

End Tensor.

Abbreviation tensor := Tensor.t.
Abbreviation labels := (list Z).

(** A minibatch as the data loaders yield it. *)
Record Batch := mkBatch { inputs : tensor; targets : labels }.

(** ** Command line *)

Module Args.
Record t := mk {
  seed : Z;
  momentum : Q;
  weight_decay : Q;
  epsilon : Q;
  m : Z;
  batch_size : Z;
  resume : option Z;
  datasets : string
}.
End Args.

Definition default_args : Args.t :=
  {| Args.seed := 11111; Args.momentum := 9 # 10;
     Args.weight_decay := 5 # 10000; Args.epsilon := 8 # 255; Args.m := 8;
     Args.batch_size := 128; Args.resume := None;
     Args.datasets := "CIFAR10" |}.

(** ** Attack objects (advertorch) *)

Inductive Reduction := ReductionMean | ReductionSum.

Inductive Attack :=
| LinfPGDAttack (loss_fn : Reduction) (eps : Q) (nb_iter : Z) (eps_iter : Q)
    (rand_init : bool) (clip_min clip_max : Q) (targeted : bool)
| FGSM (loss_fn : Reduction) (eps : Q) (clip_min clip_max : Q) (targeted : bool).

Definition attack_clip (a : Attack) : Q * Q :=
  match a with
  | LinfPGDAttack _ _ _ _ _ lo hi _ => (lo, hi)
  | FGSM _ _ lo hi _ => (lo, hi)
  end.

(** ** File names and the errors of the operating system *)

(** The OSError subclasses [open] and [os.mkdir] end with: a missing
    file or directory, a name that exists, a directory in the place of a
    file, a file in the place of a directory, and any other (such as a
    name that is too long). *)
Inductive OSErrorKind := ENOENT | EEXIST | EISDIR | ENOTDIR | EOTHER.

Fixpoint has_slash (s : string) : bool :=
  match s with
  | EmptyString => false
  | String c s' => Ascii.eqb c "/"%char || has_slash s'
  end.

(** A name that can be an entry of a directory: not empty, not '.' or
    '..', without '/', and of at most 255 bytes. *)
Definition file_name (n : string) : bool :=
  negb (has_slash n) && negb (String.eqb n "") && negb (String.eqb n ".")
  && negb (String.eqb n "..") && (String.length n <=? 255)%nat.

(** [s] without the prefix [p], when it starts with it. *)
Fixpoint strip_prefix (p s : string) : option string :=
  match p, s with
  | EmptyString, _ => Some s
  | String a p', String b s' => if Ascii.eqb a b then strip_prefix p' s' else None
  | String _ _, EmptyString => None
  end.

(** The name [n] when the path is './checkpoint/' followed by the file
    name [n]. *)
Definition checkpoint_entry (path : string) : option string :=
  match strip_prefix "./checkpoint/" path with
  | Some n => if file_name n then Some n else None
  | None => None
  end.

(** ** The numeric framework *)

(** What the script calls in torch, torchvision and advertorch.  [World]
    is the framework's mutable state: the parameters and buffers of
    [net], their gradients, the optimiser's momentum buffers and learning
    rate, and the random number generators. *)
Class Torch := {
  World : Type;
  Logits : Type;
  Loss : Type;
  StateDict : Type;
  RngState : Type;
  (** [net.train()], [net.eval()] *)
  net_train : World -> World;
  net_eval : World -> World;
  (** [optimizer.zero_grad()] *)
  zero_grad : World -> World;
  (** [net(x)] *)
  net_forward : tensor -> World -> Logits * World;
  (** [F.cross_entropy(outputs, targets)] and [loss.item()] *)
  cross_entropy : Logits -> labels -> Loss;
  loss_item : Loss -> Q;
  (** [loss.backward()]: accumulates the parameter gradients and yields
      the gradient of the loss with respect to the leaf [adv] *)
  backward : Loss -> tensor -> World -> tensor * World;
  (** [optimizer.step()] *)
  optimizer_step : World -> World;
  (** [param_group['lr'] = lr] for every parameter group *)
  set_lr : Q -> World -> World;
  (** [outputs.max(1)] compared with the targets, summed *)
  n_correct : Logits -> labels -> Z;
  (** [attack.perturb(inputs, targets)] *)
  perturb : Attack -> tensor -> labels -> World -> tensor * World;
  (** [net.state_dict()], [net.load_state_dict(sd)] *)
  state_dict : World -> StateDict;
  load_state_dict : StateDict -> World -> World;
  (** [torch.get_rng_state()], [torch.set_rng_state(r)] *)
  get_rng_state : World -> RngState;
  set_rng_state : RngState -> World -> World;
  (** [trainloader]: its number of batches, [iter] (which draws the
      epoch's permutation) and [next] (which fetches and augments one
      batch) *)
  train_len : nat;
  train_iter : World -> World;
  train_next : World -> Batch * World;
  (** the batches of [testloader] (not shuffled, no augmentation) *)
  testloader : list Batch;
  (** [torch.save] on a path that is not a file name directly in
      './checkpoint/' (a '/' in --datasets, a name too long): whether
      [open] succeeds there, and which of the tracked paths then name the
      file written, depends on directories and names the model does not
      track.  The arguments are the path, the directories and the files
      that exist. *)
  save_elsewhere : string -> gset string -> gset string -> OSErrorKind + gset string
}.

(** ** Module-level names of the script *)

(** The names the script binds once, before training, from [args]
    (lines 58-107).  The mutable globals [delta], [max_acc],
    [start_epoch] and [net] live in [State] below. *)
Record Globals := mkGlobals {
  args : Args.t;
  number_classes : Z;
  epsilon : Q;
  m : Z;
  adversary : Attack;
  adversary_50 : Attack;
  adversary_FGSM : Attack
}.

Definition globals (a : Args.t) : Globals :=
  {| args := a;
     number_classes := if decide (Args.datasets a = "CIFAR10") then 10 else 100;
     epsilon := Args.epsilon a;
     m := Args.m a;
     adversary :=
       LinfPGDAttack ReductionSum (8 # 255) 20 (2 # 255) true 0 1 false;
     adversary_50 :=
       LinfPGDAttack ReductionSum (8 # 255) 50 (2 # 255) true 0 1 false;
     adversary_FGSM := FGSM ReductionSum (8 # 255) 0 1 false |}.

(** ** Events *)

(** The library calls, the reads of [delta] (line 189, [EvAdv inputs
    delta]) and the assignments to it (lines 196 and 197), in the order
    the script makes them.  The log is ghost state: the script keeps
    none. *)
Inductive Event :=
| EvSetLr (lr : Q)
| EvNetTrain
| EvNetEval
| EvZeroGrad
| EvAdv (x d : tensor)
| EvForward (x : tensor)
| EvCrossEntropy
| EvBackward (grad : tensor)
| EvOptimizerStep
| EvDeltaStep (d : tensor)
| EvDeltaClamp (d : tensor)
| EvPerturb (a : Attack)
| EvTrainAcc (acc : Q)
| EvTestAcc (epoch : Z) (acc : Q)
| EvMkdir (dir : string)
| EvSave (path : string)
| EvLoad (path : string)
| EvLoadStateDict.

(** The Python exceptions of the model: the script's own assertion, the
    division of line 205 (and 128, 150, 172), and the OSErrors of
    [torch.load], [os.mkdir] and [torch.save]. *)
Inductive Error :=
| AssertionError (msg : string)
| FileNotFoundError (path : string)
| ZeroDivisionError
| FileExistsError (path : string)
| IsADirectoryError (path : string)
| NotADirectoryError (path : string)
| OSError (path : string).

Definition os_error (k : OSErrorKind) (path : string) : Error :=
  match k with
  | ENOENT => FileNotFoundError path
  | EEXIST => FileExistsError path
  | EISDIR => IsADirectoryError path
  | ENOTDIR => NotADirectoryError path
  | EOTHER => OSError path
  end.

(** Local accumulators of [train]. *)
Record Stats := mkStats { train_loss : Q; correct : Z; total : Z }.

Definition Qltb (x y : Q) : bool :=
  match x ?= y with Lt => true | _ => false end.

(** [range(lo, hi)] *)
Definition range (lo hi : Z) : list Z := seqZ lo (hi - lo).

Section Script.
Context `{Torch}.

(** What [torch.save] writes in [train]: the dict with keys ['net'],
    ['acc'], ['epoch'], ['rng_state']. *)
Record Checkpoint := mkCheckpoint {
  ck_net : StateDict;
  ck_acc : Q;
  ck_epoch : Z;
  ck_rng_state : RngState
}.

(** The part of the working directory the script touches: which
    paths are directories, and the checkpoint stored at each path that
    is a file. *)
Record FS := mkFS { dirs : gset string; files : gmap string Checkpoint }.

Record State := mkState {
  world : World;
  fs : FS;
  delta : tensor;
  max_acc : Q;
  start_epoch : Z;
  log : list Event
}.

Definition set_world (w : World) (s : State) : State :=
  mkState w (fs s) (delta s) (max_acc s) (start_epoch s) (log s).
Definition set_fs (f : FS) (s : State) : State :=
  mkState (world s) f (delta s) (max_acc s) (start_epoch s) (log s).
Definition set_delta (d : tensor) (s : State) : State :=
  mkState (world s) (fs s) d (max_acc s) (start_epoch s) (log s).
Definition set_max_acc (a : Q) (s : State) : State :=
  mkState (world s) (fs s) (delta s) a (start_epoch s) (log s).
Definition set_start_epoch (e : Z) (s : State) : State :=
  mkState (world s) (fs s) (delta s) (max_acc s) e (log s).
Definition add_event (e : Event) (s : State) : State :=
  mkState (world s) (fs s) (delta s) (max_acc s) (start_epoch s) (log s ++ [e]).

(** *** The state-and-exception monad of the script *)

(** A command ends normally with a value, or with an exception; either
    way it leaves a state behind. *)
Inductive Outcome (A : Type) :=
| Ok (a : A) (s : State)
| Raise (e : Error) (s : State).
Arguments Ok {A} a s.
Arguments Raise {A} e s.

Definition state_of {A} (o : Outcome A) : State :=
  match o with Ok _ s => s | Raise _ s => s end.

Definition is_ok {A} (o : Outcome A) : bool :=
  match o with Ok _ _ => true | Raise _ _ => false end.

Definition M (A : Type) : Type := State -> Outcome A.

#[export] Instance M_ret : MRet M := fun A a s => Ok a s.
#[export] Instance M_bind : MBind M := fun A B f c s =>
  match c s with
  | Ok a s' => f a s'
  | Raise e s' => Raise e s'
  end.

Definition get {A} (f : State -> A) : M A := fun s => Ok (f s) s.
Definition modify (f : State -> State) : M unit := fun s => Ok tt (f s).
Definition raise {A} (e : Error) : M A := fun s => Raise e s.
Definition emit (e : Event) : M unit := modify (add_event e).

(** A library call that only changes the framework state, and one that
    also returns a value. *)
Definition call (op : World -> World) : M unit :=
  modify (fun s => set_world (op (world s)) s).
Definition call_ret {A} (op : World -> A * World) : M A :=
  fun s => Ok (op (world s)).1 (set_world (op (world s)).2 s).

(** [for x in l: acc = body(acc, x)] *)
Fixpoint foldM {A B} (body : B -> A -> M B) (l : list A) (acc : B) : M B :=
  match l with
  | [] => mret acc
  | x :: l' => acc' ← body acc x; foldM body l' acc'
  end.

Definition for_each {A} (l : list A) (body : A -> M unit) : M unit :=
  foldM (fun _ x => body x) l tt.

(** [100.*correct/total] *)
Definition percent (correct total : Z) : M Q :=
  if decide (total = 0)%Z then raise ZeroDivisionError
  else mret (100 * inject_Z correct / inject_Z total).

(** [os.path.isdir] *)
Definition isdir (d : string) : M bool :=
  get (fun s => bool_decide (d ∈ dirs (fs s))).

(** [os.mkdir] of a name in the working directory: it fails when the
    name exists, as a directory or as a file. *)
Definition mkdir (d : string) : M unit :=
  emit (EvMkdir d);;
  f ← get fs;
  if bool_decide (d ∈ dirs f) || bool_decide (is_Some (files f !! d))
  then raise (FileExistsError d)
  else modify (set_fs (mkFS ({[d]} ∪ dirs f) (files f))).

(** [open(path, 'wb')] and the write of [torch.save].  For a file name
    in './checkpoint/' it needs the directory 'checkpoint' and no
    directory at the path; elsewhere the interface decides, and the path
    written holds the checkpoint afterwards. *)
Definition write_file (path : string) (ck : Checkpoint) (f : FS) : Error + FS :=
  match checkpoint_entry path with
  | Some _ =>
      if bool_decide ("checkpoint" ∈ dirs f) then
        if bool_decide (path ∈ dirs f) then inl (IsADirectoryError path)
        else inr (mkFS (dirs f) (<[path := ck]> (files f)))
      else if bool_decide (is_Some (files f !! "checkpoint"))
      then inl (NotADirectoryError path)
      else inl (FileNotFoundError path)
  | None =>
      match save_elsewhere path (dirs f) (dom (files f)) with
      | inl k => inl (os_error k path)
      | inr aliases =>
          inr (mkFS (dirs f) (<[path := ck]> (gset_to_gmap ck aliases ∪ files f)))
      end
  end.

(** [torch.save] *)
Definition torch_save (ck : Checkpoint) (path : string) : M unit :=
  emit (EvSave path);;
  f ← get fs;
  match write_file path ck f with
  | inl e => raise e
  | inr f' => modify (set_fs f')
  end.

(** [torch.load] *)
Definition torch_load (path : string) : M Checkpoint :=
  emit (EvLoad path);;
  f ← get (fun s => files (fs s) !! path);
  match f with
  | Some ck => mret ck
  | None => raise (FileNotFoundError path)
  end.

(** *** Lines 83-90: resuming from a checkpoint *)

Definition resume_from_checkpoint (g : Globals) : M unit :=
  match Args.resume (args g) with
  | None => mret tt
  | Some r =>
      d ← isdir "checkpoint";
      (if d : bool then mret tt
       else raise (AssertionError "Error: no checkpoint directory found!"));;
      checkpoint ← torch_load ("./checkpoint/ckpt." +:+ pretty r);
      emit EvLoadStateDict;;
      call (load_state_dict (ck_net checkpoint));;
      modify (set_start_epoch (ck_epoch checkpoint + 1));;
      call (set_rng_state (ck_rng_state checkpoint))
  end.

(** *** Lines 110-174: [test], [test_50], [test_fgsm] *)

(** The three functions differ only in the attack object they call.
    Lines 117-123: the body of the loop over [testloader], with the
    accumulators [(correct, total)]. *)
Definition test_batch (atk : Attack) (acc : Z * Z) (b : Batch) : M (Z * Z) :=
  emit (EvPerturb atk);;
  adv ← call_ret (perturb atk (inputs b) (targets b));
  emit (EvForward adv);;
  outputs ← call_ret (net_forward adv);
  mret (acc.1 + n_correct outputs (targets b),
        acc.2 + Z.of_nat (length (targets b)))%Z.

Definition test_with (atk : Attack) (epoch : Z) : M Q :=
  emit EvNetEval;;
  call net_eval;;
  acc ← foldM (test_batch atk) testloader (0, 0)%Z;
  acc ← percent acc.1 acc.2;
  emit (EvTestAcc epoch acc);;
  mret acc.

Definition test (g : Globals) : Z -> M Q := test_with (adversary g).
Definition test_50 (g : Globals) : Z -> M Q := test_with (adversary_50 g).
Definition test_fgsm (g : Globals) : Z -> M Q := test_with (adversary_FGSM g).

(** *** Lines 176-223: [train] *)

(** Lines 196-197: the new value of [delta] from the old one and
    [adv.grad]. *)
Definition delta_step (eps : Q) (d grad : tensor) : tensor :=
  Tensor.add d (Tensor.scale eps (Tensor.sign grad)).
Definition delta_clamp (eps : Q) (d : tensor) : tensor :=
  Tensor.clamp d (- eps) eps.

(** Lines 188-203: the body of [for i in range(m)]. *)
Definition inner_step (g : Globals) (b : Batch) (st : Stats) : M Stats :=
  emit EvZeroGrad;;
  call zero_grad;;
  d ← get delta;
  emit (EvAdv (inputs b) d);;
  let adv := Tensor.add (inputs b) d in
  emit (EvForward adv);;
  outputs ← call_ret (net_forward adv);
  emit EvCrossEntropy;;
  let loss := cross_entropy outputs (targets b) in
  grad ← call_ret (backward loss adv);
  emit (EvBackward grad);;
  emit EvOptimizerStep;;
  call optimizer_step;;
  d ← get delta;
  modify (set_delta (delta_step (epsilon g) d grad));;
  d ← get delta;
  emit (EvDeltaStep d);;
  modify (set_delta (delta_clamp (epsilon g) d));;
  d ← get delta;
  emit (EvDeltaClamp d);;
  mret {| train_loss := train_loss st + loss_item loss;
          correct := correct st + n_correct outputs (targets b);
          total := total st + Z.of_nat (length (targets b)) |}.

(** Lines 187-203: [for i in range(m)] on one batch. *)
Definition train_batch (g : Globals) (b : Batch) (st : Stats) : M Stats :=
  foldM (fun st _ => inner_step g b st) (range 0 (m g)) st.

(** Lines 185-203: the loop over the training batches. *)
Definition train_next_batch (g : Globals) (st : Stats) : M Stats :=
  b ← call_ret train_next;
  train_batch g b st.

Definition train_batches (g : Globals) : M Stats :=
  call train_iter;;
  foldM (fun st _ => train_next_batch g st) (seq 0 train_len) (mkStats 0 0 0).

(** Lines 209-222: keep the checkpoint when the accuracy improves. *)
Definition save_if_best (g : Globals) (epoch : Z) (acc tmp_acc : Q) : M unit :=
  mx ← get max_acc;
  if Qltb mx tmp_acc then
    modify (set_max_acc tmp_acc);;
    w ← get world;
    let state := {| ck_net := state_dict w; ck_acc := acc;
                    ck_epoch := epoch; ck_rng_state := get_rng_state w |} in
    d ← isdir "checkpoint";
    (if d : bool then mret tt else mkdir "checkpoint");;
    torch_save state ("./checkpoint/best" +:+ Args.datasets (args g))
  else mret tt.

Definition train (g : Globals) (epoch : Z) : M unit :=
  emit EvNetTrain;;
  call net_train;;
  st ← train_batches g;
  acc ← percent (correct st) (total st);
  emit (EvTrainAcc acc);;
  tmp_acc ← test g epoch;
  save_if_best g epoch acc tmp_acc.

(** *** Lines 226-234: the learning-rate schedule *)

(** The last branch is [elif epoch >= 22], which holds whenever it is
    reached. *)
Definition adjust_learning_rate (epoch : Z) : M unit :=
  let lr := if decide (epoch < 12)%Z then 1 # 10
            else if decide (12 ≤ epoch ∧ epoch < 22)%Z then 1 # 100
            else 1 # 1000 in
  emit (EvSetLr lr);;
  call (set_lr lr).

(** *** Lines 238-249: the epoch loop and the final evaluation *)

Definition epoch_loop (g : Globals) (epochs : list Z) : M unit :=
  for_each epochs (fun epoch => adjust_learning_rate epoch;; train g epoch).

Definition final_evaluation (g : Globals) : M unit :=
  checkpoint ← torch_load ("./checkpoint/best" +:+ Args.datasets (args g));
  emit EvLoadStateDict;;
  call (load_state_dict (ck_net checkpoint));;
  emit EvNetEval;;
  call net_eval;;
  test g 111;;
  test_50 g 111;;
  test_fgsm g 111;;
  mret tt.

(** The state in which the script starts: the framework state [w] after
    the network, the optimiser and the loaders were built, the working
    directory [f], [delta] as line 78 creates it, [max_acc] as line 236
    sets it. *)
Definition initial_state (g : Globals) (w : World) (f : FS) : State :=
  {| world := w; fs := f;
     delta := Tensor.zeros [Args.batch_size (args g); 3; 32; 32]%Z;
     max_acc := 0; start_epoch := 0; log := [] |}.

(** Lines 83-240: resuming, then the epochs from [start_epoch] to 26. *)
Definition training (g : Globals) : M unit :=
  resume_from_checkpoint g;;
  e ← get start_epoch;
  epoch_loop g (range e 27).

Definition script (g : Globals) : M unit :=
  training g;;
  final_evaluation g.

Definition main (a : Args.t) (w : World) (f : FS) : Outcome unit :=
  script (globals a) (initial_state (globals a) w f).

End Script.

Arguments Ok {_ A} a s.
Arguments Raise {_ A} e s.

(** ** Reading the log *)

(** The attack objects of the [perturb] calls, the accuracies the test
    functions printed, the paths [torch.save] wrote to. *)
Definition perturbs (l : list Event) : list Attack :=
  omap (fun e => match e with EvPerturb a => Some a | _ => None end) l.
Definition test_accs (l : list Event) : list Q :=
  omap (fun e => match e with EvTestAcc _ acc => Some acc | _ => None end) l.
Definition saves (l : list Event) : list string :=
  omap (fun e => match e with EvSave p => Some p | _ => None end) l.

(** The value [delta] holds after the assignments of [l], from [d]. *)
Definition current_delta (d : tensor) (l : list Event) : tensor :=
  foldl (fun d e => match e with EvDeltaClamp d' => d' | _ => d end) d l.

(** Every read of [delta] in [l] sees the value of the last clamp before
    it, and [d] when there is none. *)
Fixpoint persistent (d : tensor) (l : list Event) : Prop :=
  match l with
  | [] => True
  | EvAdv _ d' :: l' => d' = d /\ persistent d l'
  | EvDeltaClamp d' :: l' => persistent d' l'
  | _ :: l' => persistent d l'
  end.

(** One inner iteration: lines 196-197 as one function, and the events
    of lines 188-197 when [delta] is [d] and [adv.grad] comes out as
    [grad]. *)
Definition next_delta (eps : Q) (d grad : tensor) : tensor :=
  delta_clamp eps (delta_step eps d grad).

Definition iteration_events (eps : Q) (b : Batch) (d grad : tensor) : list Event :=
  [ EvZeroGrad; EvAdv (inputs b) d; EvForward (Tensor.add (inputs b) d);
    EvCrossEntropy; EvBackward grad; EvOptimizerStep;
    EvDeltaStep (delta_step eps d grad); EvDeltaClamp (next_delta eps d grad) ].

Fixpoint batch_events (eps : Q) (b : Batch) (d : tensor) (grads : list tensor)
  : list Event :=
  match grads with
  | [] => []
  | grad :: grads' =>
      iteration_events eps b d grad ++ batch_events eps b (next_delta eps d grad) grads'
  end.

(** What one inner iteration computes from the state [s] it starts in:
    the adversarial input, the logits, the loss, the gradient of the loss
    with respect to the adversarial input, and the framework state after
    the optimiser step. *)
Section Iteration.
Context `{Torch}.

Definition step_adv (b : Batch) (s : State) : tensor :=
  Tensor.add (inputs b) (delta s).
Definition step_outputs (b : Batch) (s : State) : Logits :=
  (net_forward (step_adv b s) (zero_grad (world s))).1.
Definition step_loss (b : Batch) (s : State) : Loss :=
  cross_entropy (step_outputs b s) (targets b).
Definition step_grad (b : Batch) (s : State) : tensor :=
  (backward (step_loss b s) (step_adv b s)
     (net_forward (step_adv b s) (zero_grad (world s))).2).1.
Definition step_world (b : Batch) (s : State) : World :=
  optimizer_step
    (backward (step_loss b s) (step_adv b s)
       (net_forward (step_adv b s) (zero_grad (world s))).2).2.
Definition step_stats (b : Batch) (st : Stats) (s : State) : Stats :=
  {| train_loss := train_loss st + loss_item (step_loss b s);
     correct := correct st + n_correct (step_outputs b s) (targets b);
     total := total st + Z.of_nat (length (targets b)) |}.

(** The state one inner iteration with the globals [g] leaves. *)
Definition step_state (g : Globals) (b : Batch) (s : State) : State :=
  mkState (step_world b s) (fs s)
    (next_delta (epsilon g) (delta s) (step_grad b s))
    (max_acc s) (start_epoch s)
    (log s ++ iteration_events (epsilon g) b (delta s) (step_grad b s)).

End Iteration.

(** All elements within [[-eps, eps]]. *)
Definition bounded (eps : Q) (d : tensor) : Prop :=
  Tensor.all (fun x => - eps <= x /\ x <= eps) d.

(** All elements within [[lo, hi]]. *)
Definition within (lo hi : Q) (x : tensor) : Prop :=
  Tensor.all (fun a => lo <= a /\ a <= hi) x.

Definition best_path (g : Globals) : string :=
  "./checkpoint/best" +:+ Args.datasets (args g).

(** [args] with another [--epsilon]. *)
Definition with_epsilon (e : Q) (a : Args.t) : Args.t :=
  Args.mk (Args.seed a) (Args.momentum a) (Args.weight_decay a) e (Args.m a)
    (Args.batch_size a) (Args.resume a) (Args.datasets a).

(** The number of samples in a list of batches: what [total] is at the
    end of a test. *)
Definition targets_total (l : list Batch) : Z :=
  foldr (fun b n => Z.of_nat (length (targets b)) + n)%Z 0%Z l.
Definition test_total `{Torch} : Z := targets_total testloader.

(** ** What a test function computes *)

Section Attacked.
Context `{Torch}.

(** Lines 117-122 on the counters [(correct, total)] and the framework
    state: the attack on the batch, the forward pass on what the attack
    returns, and the count of its correct predictions. *)
Definition attacked_batch (atk : Attack) (r : Z * Z * World) (b : Batch)
  : Z * Z * World :=
  let p := perturb atk (inputs b) (targets b) r.2 in
  let o := net_forward p.1 p.2 in
  ((r.1.1 + n_correct o.1 (targets b))%Z,
   (r.1.2 + Z.of_nat (length (targets b)))%Z, o.2).

(** Lines 111-122: the counters and the framework state after
    [net.eval()] and the loop over [testloader], from the framework
    state [w]. *)
Definition attacked (atk : Attack) (w : World) : Z * Z * World :=
  foldl (attacked_batch atk) (0%Z, 0%Z, net_eval w) testloader.

(** The events of the loop over the batches [l] from [w]. *)
Fixpoint attack_events (atk : Attack) (l : list Batch) (w : World) : list Event :=
  match l with
  | [] => []
  | b :: l' =>
      let p := perturb atk (inputs b) (targets b) w in
      EvPerturb atk :: EvForward p.1 ::
        attack_events atk l' (net_forward p.1 p.2).2
  end.

(** The accuracy line 128 computes from the counters. *)
Definition accuracy (r : Z * Z * World) : Q :=
  100 * inject_Z r.1.1 / inject_Z r.1.2.

(** The exception an outcome carries. *)
Definition error_of {A} (o : Outcome A) : option Error :=
  match o with Ok _ _ => None | Raise e _ => Some e end.

End Attacked.

(** Nothing stands in the way of writing the best checkpoint: its name
    is a file name, no file is called 'checkpoint' and no directory is at
    the path of the checkpoint. *)
Definition can_write `{Torch} (g : Globals) (f : FS) : Prop :=
  file_name ("best" +:+ Args.datasets (args g)) = true /\
  files f !! "checkpoint" = None /\
  best_path g ∉ dirs f.

(** Events of training iterations only: no attack, no test accuracy, no
    checkpoint. *)
Definition quiet (l : list Event) : Prop :=
  perturbs l = [] /\ test_accs l = [] /\ saves l = [].

(** The learning rate lines 227-232 choose for an epoch, and the file
    line 87 reads for [--resume r]. *)
Definition scheduled_lr (epoch : Z) : Q :=
  if decide (epoch < 12)%Z then 1 # 10
  else if decide (12 ≤ epoch ∧ epoch < 22)%Z then 1 # 100
  else 1 # 1000.

Definition ckpt_path (r : Z) : string := "./checkpoint/ckpt." +:+ pretty r.

(** ** Assertions about commands *)

(** Events that neither read nor assign [delta]. *)
Definition neutral (e : Event) : Prop :=
  match e with
  | EvAdv _ _ | EvDeltaStep _ | EvDeltaClamp _ => False
  | _ => True
  end.

Definition not_assertion (e : Error) : Prop :=
  match e with AssertionError _ => False | _ => True end.

Section Assertions.
Context `{Torch}.

(** [hoare P c Q R]: from a state in [P], [c] ends normally in [Q] or
    raises in [R]. *)
Definition hoare {A} (P : State -> Prop) (c : M A)
    (Q : A -> State -> Prop) (R : Error -> State -> Prop) : Prop :=
  forall s, P s ->
    match c s with
    | Ok a s' => Q a s'
    | Raise e s' => R e s'
    end.

(** [c] keeps [I], however it ends. *)
Definition preserves {A} (I : State -> Prop) (c : M A) : Prop :=
  hoare I c (fun _ => I) (fun _ => I).

(** [I] holds of [delta] and the log in the state [s]. *)
Definition holds (I : tensor -> list Event -> Prop) (s : State) : Prop :=
  I (delta s) (log s).

(** [max_acc] is the largest accuracy a test printed so far, and 0 when
    none did. *)
Definition best_so_far (s : State) : Prop :=
  max_acc s = foldl Qmax 0 (test_accs (log s)).

(** [c] keeps [I] as long as it ends normally. *)
Definition keeps_ok {A} (I : State -> Prop) (c : M A) : Prop :=
  hoare I c (fun _ => I) (fun _ _ => True).

(** [c] never ends with an [AssertionError]. *)
Definition no_assert {A} (c : M A) : Prop :=
  hoare (fun _ => True) c (fun _ _ => True) (fun e _ => not_assertion e).

End Assertions.

(** Every element is [c]. *)
Definition constant (c : Q) (d : tensor) : Prop := Tensor.all (fun x => x = c) d.

(** A clamp that assigns a tensor whose elements all are [eps], and so
    outside [[-eps, eps]] when there is one. *)
Definition delta_event_pinned (eps : Q) (e : Event) : Prop :=
  match e with
  | EvDeltaClamp d => constant eps d /\ (Tensor.data d <> [] -> ~ bounded eps d)
  | _ => True
  end.

(** A percentage. *)
Definition pct (a : Q) : Prop := 0 <= a /\ a <= 100.

(** The accuracy an event prints is a percentage. *)
Definition acc_event_ok (e : Event) : Prop :=
  match e with
  | EvTrainAcc a => pct a
  | EvTestAcc _ a => pct a
  | _ => True
  end.

(** Every accuracy printed so far, and [max_acc], is a percentage. *)
Definition accs_ok `{Torch} (s : State) : Prop :=
  Forall acc_event_ok (log s) /\ pct (max_acc s).

(** A count of correct predictions among the samples counted. *)
Definition counted (c t : Z) : Prop := (0 <= c <= t)%Z.

(** The mode [net.train()] and [net.eval()] put the network in. *)
Inductive Mode := TrainMode | EvalMode.

Definition mode_after (m : option Mode) (e : Event) : option Mode :=
  match e with
  | EvNetTrain => Some TrainMode
  | EvNetEval => Some EvalMode
  | _ => m
  end.

(** The mode at the end of a log; [None] before the first call. *)
Definition mode : list Event -> option Mode := foldl mode_after None.

(** The script's own steps of a training iteration ([zero_grad],
    [loss.backward()] of line 193, [optimizer.step()]) need the training
    mode, a call of [perturb] and the accuracy of a test the evaluation
    mode.  What an attack does inside [perturb] is not in the log. *)
Definition mode_ok (m : option Mode) (e : Event) : Prop :=
  match e with
  | EvZeroGrad | EvBackward _ | EvOptimizerStep => m = Some TrainMode
  | EvPerturb _ | EvTestAcc _ _ => m = Some EvalMode
  | _ => True
  end.

(** Every event of [l] happens in a mode it can, from the mode [m]. *)
Fixpoint well_moded (m : option Mode) (l : list Event) : Prop :=
  match l with
  | [] => True
  | e :: l' => mode_ok m e /\ well_moded (mode_after m e) l'
  end.

(** The log is well moded and ends in the mode [m]. *)
Definition in_mode `{Torch} (m : option Mode) (s : State) : Prop :=
  well_moded None (log s) /\ mode (log s) = m.

Definition moded `{Torch} (s : State) : Prop := well_moded None (log s).

(** What the run knows about the best-checkpoint file when it started
    with the files [f]: [max_acc] is not negative; while it is not
    positive nothing was saved; once it is positive the file exists and
    holds the epoch whose test printed [max_acc]. *)
Definition best_file_inv `{Torch} (g : Globals) (f : FS) (s : State) : Prop :=
  0 <= max_acc s /\
  (~ 0 < max_acc s -> saves (log s) = [] /\ files (fs s) = files f) /\
  (0 < max_acc s ->
     saves (log s) <> [] /\
     exists ck, files (fs s) !! best_path g = Some ck /\
       EvTestAcc (ck_epoch ck) (max_acc s) ∈ log s).

(** What a whole run keeps of the files [f] it started with: every save
    goes to the path of the best checkpoint, nothing changes before the
    first, no directory disappears, and where the path is a file name
    in './checkpoint/' no other path changes. *)
Definition writes_inv `{Torch} (g : Globals) (f : FS) (s : State) : Prop :=
  Forall (fun p => p = best_path g) (saves (log s)) /\
  (saves (log s) = [] -> files (fs s) = files f) /\
  dirs f ⊆ dirs (fs s) /\
  (file_name ("best" +:+ Args.datasets (args g)) = true ->
   forall p, p <> best_path g -> files (fs s) !! p = files f !! p).

(** ** A small instance of the framework

    One training batch and one test batch of a single 3x32x32 image whose
    first half is black and whose second half is white; the "network" is
    a step counter, classifies correctly until its second optimiser step,
    and its input gradient is negative on dark pixels and positive on
    bright ones. *)
Module Toy.

Definition image : tensor :=
  Tensor.mk [1; 3; 32; 32]%Z (replicate 1536 0 ++ replicate 1536 1).

Definition batch : Batch := mkBatch image [0%Z].

#[export] Instance torch : Torch := {|
  World := Z;
  Logits := tensor * Z;
  Loss := tensor;
  StateDict := Z;
  RngState := Z;
  net_train w := w;
  net_eval w := w;
  zero_grad w := w;
  net_forward x w := ((x, w), w);
  cross_entropy out _ := out.1;
  loss_item _ := 0;
  backward _ adv w := (Tensor.map (fun x => x - (1 # 2)) adv, w);
  optimizer_step w := (w + 1)%Z;
  set_lr _ w := w;
  n_correct out tg := if (out.2 <? 2)%Z then Z.of_nat (length tg) else 0%Z;
  perturb _ x _ w := (x, w);
  state_dict w := w;
  load_state_dict sd _ := sd;
  get_rng_state w := w;
  set_rng_state _ w := w;
  train_len := 1;
  train_iter w := w;
  train_next w := (batch, w);
  testloader := [batch];
  save_elsewhere _ _ _ := inl ENOENT
|}.

(** [--m k --batch_size 1], and optionally [--resume r]. *)
Definition args_of (k : Z) (r : option Z) : Args.t :=
  {| Args.seed := 11111; Args.momentum := 9 # 10;
     Args.weight_decay := 5 # 10000; Args.epsilon := 8 # 255; Args.m := k;
     Args.batch_size := 1; Args.resume := r; Args.datasets := "CIFAR10" |}.

Definition args1 : Args.t := args_of 1 None.

(** An empty working directory, and the state a run with the arguments
    [a] starts in there. *)
Definition fs0 : FS := mkFS ∅ ∅.
Definition start (a : Args.t) : State := initial_state (globals a) 0%Z fs0.

(** A working directory with an empty 'checkpoint' directory, and one
    that also holds the checkpoint of epoch 25 as 'ckpt.5'. *)
Definition fs_dir : FS := mkFS {["checkpoint"]} ∅.
Definition fs_ckpt : FS :=
  mkFS {["checkpoint"]} {[ "./checkpoint/ckpt.5" := mkCheckpoint 0%Z 0 25 0%Z ]}.

(** A working directory in which 'checkpoint' is a regular file. *)
Definition fs_file : FS := mkFS ∅ {[ "checkpoint" := mkCheckpoint 0%Z 0 0 0%Z ]}.

End Toy.

(** * Reasoning rules *)

Section Logic.
Context `{Torch}.

Lemma hoare_ret {A} (P : State -> Prop) (a : A) Q R :
  (forall s, P s -> Q a s) -> hoare P (mret a) Q R.
Proof. intros HQ s Hs. now apply HQ. Qed.

Lemma hoare_bind {A B} P (c : M A) (f : A -> M B) Q' Q R :
  hoare P c Q' R -> (forall a, hoare (Q' a) (f a) Q R) ->
  hoare P (c ≫= f) Q R.
Proof.
  intros Hc Hf s Hs. specialize (Hc s Hs).
  unfold mbind, M_bind. destruct (c s) as [a s'|e s']; [|exact Hc].
  now apply Hf.
Qed.

Lemma hoare_foldM {A B} (I : B -> State -> Prop) R
    (body : B -> A -> M B) (l : list A) :
  (forall acc x, x ∈ l -> hoare (I acc) (body acc x) I R) ->
  forall acc, hoare (I acc) (foldM body l acc) I R.
Proof.
  induction l as [|x l IH]; intros Hbody acc; cbn [foldM].
  - now apply hoare_ret.
  - eapply hoare_bind.
    + apply Hbody. left.
    + intros acc'. apply IH. intros acc'' y Hy. apply Hbody. now right.
Qed.

Lemma preserves_ret {A} I (a : A) : preserves I (mret a).
Proof. now apply hoare_ret. Qed.

Lemma preserves_bind {A B} I (c : M A) (f : A -> M B) :
  preserves I c -> (forall a, preserves I (f a)) -> preserves I (c ≫= f).
Proof. intros Hc Hf. eapply hoare_bind; [exact Hc|exact Hf]. Qed.

Lemma preserves_get {A} I (f : State -> A) : preserves I (get f).
Proof. intros s Hs. exact Hs. Qed.

Lemma preserves_raise {A} I e : preserves I (raise (A := A) e).
Proof. intros s Hs. exact Hs. Qed.

Lemma preserves_modify I (f : State -> State) :
  (forall s, I s -> I (f s)) -> preserves I (modify f).
Proof. intros Hf s Hs. now apply Hf. Qed.

Lemma preserves_foldM {A B} I (body : B -> A -> M B) (l : list A) acc :
  (forall acc x, preserves I (body acc x)) -> preserves I (foldM body l acc).
Proof.
  intros Hbody.
  apply (hoare_foldM (fun _ => I) (fun _ => I) body l); intros; apply Hbody.
Qed.

Lemma preserves_if {A} I (b : bool) (c1 c2 : M A) :
  preserves I c1 -> preserves I c2 -> preserves I (if b then c1 else c2).
Proof. now destruct b. Qed.

Lemma is_ok_state_of (o : Outcome unit) : is_ok o = true -> o = Ok tt (state_of o).
Proof. destruct o as [[] s|e s]; [reflexivity|discriminate]. Qed.

Lemma preserves_state_of {A} I (c : M A) s :
  preserves I c -> I s -> I (state_of (c s)).
Proof. intros Hc Hs. specialize (Hc s Hs). now destruct (c s). Qed.

End Logic.

(** Unfolds the monad's operations in a command applied to a state. *)
Ltac run_monad :=
  unfold mbind, M_bind, mret, M_ret, emit, modify, call, call_ret, get, raise,
    add_event, set_world, set_fs, set_delta, set_max_acc, set_start_epoch;
  cbn.

(** * Facts about tensors and the buffer update *)

Lemma clamp1_bounds lo hi a : lo <= hi -> lo <= Tensor.clamp1 lo hi a /\ Tensor.clamp1 lo hi a <= hi.
Proof.
  intros Hle. unfold Tensor.clamp1. split.
  - apply Q.min_glb; [apply Q.le_max_r|exact Hle].
  - apply Q.le_min_r.
Qed.

Lemma clamp_bounded eps d : 0 <= eps -> bounded eps (delta_clamp eps d).
Proof.
  intros Heps. unfold bounded, Tensor.all, delta_clamp, Tensor.clamp, Tensor.map.
  cbn. apply Forall_fmap, Forall_forall. intros x _. cbn.
  apply clamp1_bounds. lra.
Qed.

Lemma next_delta_bounded eps d grad : 0 <= eps -> bounded eps (next_delta eps d grad).
Proof. intros Heps. now apply clamp_bounded. Qed.

(** The update of lines 196-197, element by element. *)
Lemma next_delta_data eps d grad :
  Tensor.data (next_delta eps d grad) =
  zip_with (fun x y => Qmin (Qmax (x + eps * Tensor.sgn y) (- eps)) eps)
    (Tensor.data d) (Tensor.data grad).
Proof.
  unfold next_delta, delta_clamp, delta_step, Tensor.clamp, Tensor.add,
    Tensor.scale, Tensor.sign, Tensor.map, Tensor.map2. cbn.
  rewrite <- list_fmap_compose, zip_with_fmap_r.
  generalize (Tensor.data grad) as k.
  induction (Tensor.data d) as [|x l IH]; intros [|y k]; cbn; try reflexivity.
  now rewrite IH.
Qed.

(** * The inner iteration *)

Section Train.
Context `{Torch}.

(** An inner iteration always ends normally, in this state. *)
Lemma inner_step_run g b st s :
  inner_step g b st s = Ok (step_stats b st s) (step_state g b s).
Proof.
  unfold inner_step, step_state, iteration_events, step_stats, step_world,
    step_grad, step_loss, step_outputs, step_adv, next_delta.
  run_monad. rewrite <- !app_assoc. reflexivity.
Qed.

End Train.

(** * Invariants of [delta] and the log *)

Create HintDb keeps discriminated.

Section DeltaInvariant.
Context `{Torch}.

(** A property of [delta] and the log that the events outside the inner
    iteration do not disturb, and that one inner iteration with step
    size [eps] re-establishes. *)
Variable I : tensor -> list Event -> Prop.
Variable eps : Q.
Hypothesis I_neutral : forall d l e, neutral e -> I d l -> I d (l ++ [e]).
Hypothesis I_iteration : forall d l b grad,
  I d l -> I (next_delta eps d grad) (l ++ iteration_events eps b d grad).

Lemma keeps_emit e : neutral e -> preserves (holds I) (emit e).
Proof. intros He s Hs. now apply I_neutral. Qed.

Lemma keeps_call op : preserves (holds I) (call op).
Proof. intros s Hs. exact Hs. Qed.

Lemma keeps_call_ret {A} (op : World -> A * World) : preserves (holds I) (call_ret op).
Proof. intros s Hs. exact Hs. Qed.

Lemma keeps_percent c t : preserves (holds I) (percent c t).
Proof. unfold percent. case_decide; [apply preserves_raise|apply preserves_ret]. Qed.

Lemma keeps_isdir d : preserves (holds I) (isdir d).
Proof. apply preserves_get. Qed.

Lemma keeps_mkdir d : preserves (holds I) (mkdir d).
Proof.
  apply preserves_bind; [now apply keeps_emit|intros _].
  apply preserves_bind; [apply preserves_get|intros f].
  apply preserves_if; [apply preserves_raise|].
  apply preserves_modify. intros s Hs. exact Hs.
Qed.

Lemma keeps_torch_save ck p : preserves (holds I) (torch_save ck p).
Proof.
  apply preserves_bind; [now apply keeps_emit|intros _].
  apply preserves_bind; [apply preserves_get|intros f].
  destruct (write_file p ck f) as [e|f']; [apply preserves_raise|].
  apply preserves_modify. intros s Hs. exact Hs.
Qed.

Lemma keeps_torch_load p : preserves (holds I) (torch_load p).
Proof.
  apply preserves_bind; [now apply keeps_emit|intros _].
  apply preserves_bind; [apply preserves_get|intros [ck|]].
  - apply preserves_ret.
  - apply preserves_raise.
Qed.

Lemma keeps_set_max_acc a : preserves (holds I) (modify (set_max_acc a)).
Proof. apply preserves_modify. intros s Hs. exact Hs. Qed.

Lemma keeps_set_start_epoch e : preserves (holds I) (modify (set_start_epoch e)).
Proof. apply preserves_modify. intros s Hs. exact Hs. Qed.

Hint Resolve preserves_ret preserves_get preserves_raise keeps_call
  keeps_call_ret keeps_percent keeps_isdir keeps_mkdir keeps_torch_save
  keeps_torch_load keeps_set_max_acc keeps_set_start_epoch : keeps.

(** Splits a sequence of commands and closes what the hints know. *)
Ltac keeps :=
  repeat match goal with
  | |- preserves _ (mbind _ _) => apply preserves_bind; [|intros ?]
  | |- preserves _ (if _ then _ else _) => apply preserves_if
  | |- preserves _ (emit _) => apply keeps_emit; done
  | |- preserves _ _ => solve [auto with keeps]
  end.

Lemma keeps_inner_step g b st : epsilon g = eps -> preserves (holds I) (inner_step g b st).
Proof.
  intros Heps s Hs. rewrite inner_step_run. unfold step_state, holds. cbn.
  rewrite Heps. now apply I_iteration.
Qed.

Lemma keeps_train_batch g b st : epsilon g = eps -> preserves (holds I) (train_batch g b st).
Proof.
  intros Heps. apply preserves_foldM. intros. now apply keeps_inner_step.
Qed.

Lemma keeps_train_batches g : epsilon g = eps -> preserves (holds I) (train_batches g).
Proof.
  intros Heps. unfold train_batches. keeps.
  apply preserves_foldM. intros. unfold train_next_batch. keeps.
  now apply keeps_train_batch.
Qed.

Lemma keeps_test_with atk epoch : preserves (holds I) (test_with atk epoch).
Proof.
  unfold test_with. keeps.
  apply preserves_foldM. intros acc b. unfold test_batch. keeps.
Qed.

Lemma keeps_save_if_best g epoch acc tmp_acc :
  preserves (holds I) (save_if_best g epoch acc tmp_acc).
Proof. unfold save_if_best. keeps. Qed.

Lemma keeps_train g epoch : epsilon g = eps -> preserves (holds I) (train g epoch).
Proof.
  intros Heps. unfold train. keeps.
  - now apply keeps_train_batches.
  - apply keeps_test_with.
  - apply keeps_save_if_best.
Qed.

Lemma keeps_adjust_learning_rate epoch : preserves (holds I) (adjust_learning_rate epoch).
Proof. unfold adjust_learning_rate. cbv zeta. keeps. Qed.

Lemma keeps_epoch_loop g epochs : epsilon g = eps -> preserves (holds I) (epoch_loop g epochs).
Proof.
  intros Heps. apply preserves_foldM. intros. keeps.
  - apply keeps_adjust_learning_rate.
  - now apply keeps_train.
Qed.

Lemma keeps_final_evaluation g : preserves (holds I) (final_evaluation g).
Proof. unfold final_evaluation, test, test_50, test_fgsm. keeps; apply keeps_test_with. Qed.

Lemma keeps_resume_from_checkpoint g : preserves (holds I) (resume_from_checkpoint g).
Proof. unfold resume_from_checkpoint. destruct (Args.resume (args g)); keeps. Qed.

Lemma keeps_script g : epsilon g = eps -> preserves (holds I) (script g).
Proof.
  intros Heps. unfold script, training. keeps.
  - apply keeps_resume_from_checkpoint.
  - now apply keeps_epoch_loop.
  - apply keeps_final_evaluation.
Qed.

End DeltaInvariant.

(** * The training loop *)

Lemma persistent_app d l l' :
  persistent d (l ++ l') <-> persistent d l /\ persistent (current_delta d l) l'.
Proof.
  revert d. induction l as [|e l IH]; intros d; cbn.
  - tauto.
  - destruct e; cbn; rewrite ?IH; tauto.
Qed.

Lemma current_delta_app d l l' :
  current_delta d (l ++ l') = current_delta (current_delta d l) l'.
Proof. apply foldl_app. Qed.

Section Training.
Context `{Torch}.

(** The inner loop over any list of indices: it ends normally, after one
    iteration per index, each starting from the buffer the one before
    left. *)
Lemma inner_loop_run g b (l : list Z) : forall st s,
  exists grads st' s',
    foldM (fun st _ => inner_step g b st) l st s = Ok st' s' /\
    length grads = length l /\
    log s' = log s ++ batch_events (epsilon g) b (delta s) grads /\
    delta s' = foldl (next_delta (epsilon g)) (delta s) grads /\
    fs s' = fs s /\ max_acc s' = max_acc s /\ start_epoch s' = start_epoch s /\
    total st' = (total st + Z.of_nat (length l) * Z.of_nat (length (targets b)))%Z.
Proof.
  induction l as [|i l IH]; intros st s.
  - exists [], st, s. cbn. rewrite app_nil_r. repeat split; lia.
  - cbn [foldM]. unfold mbind, M_bind. rewrite inner_step_run. unfold step_state.
    edestruct IH as (grads & st' & s' & Hrun & Hlen & Hlog & Hd & Hfs & Hmax & Hse & Htot).
    exists (step_grad b s :: grads), st', s'.
    split; [exact Hrun|]. cbn in *.
    rewrite Hlog, Hd, Hfs, Hmax, Hse, Htot, Hlen, <- app_assoc.
    repeat split; lia.
Qed.

(** The same loop as the iteration of [step_state]. *)
Lemma inner_loop_iter g b (l : list Z) : forall st s,
  exists st',
    foldM (fun st _ => inner_step g b st) l st s
    = Ok st' (Nat.iter (length l) (step_state g b) s).
Proof.
  induction l as [|i l IH]; intros st s.
  - now exists st.
  - cbn [foldM]. unfold mbind, M_bind. rewrite inner_step_run.
    destruct (IH (step_stats b st s) (step_state g b s)) as [st' Hrun].
    exists st'. rewrite Hrun. cbn [length]. now rewrite Nat.iter_succ_r.
Qed.

End Training.

(** A whole run keeps what every inner iteration re-establishes. *)
Lemma main_holds `{Torch} (I : tensor -> list Event -> Prop) (a : Args.t) w f :
  (forall d l e, neutral e -> I d l -> I d (l ++ [e])) ->
  (forall d l b grad, I d l ->
     I (next_delta (Args.epsilon a) d grad)
       (l ++ iteration_events (Args.epsilon a) b d grad)) ->
  I (Tensor.zeros [Args.batch_size a; 3; 32; 32]%Z) [] ->
  I (delta (state_of (main a w f))) (log (state_of (main a w f))).
Proof.
  intros Hn Hi H0. unfold main.
  apply (preserves_state_of (holds I) (script (globals a))); [|exact H0].
  now apply keeps_script with (eps := Args.epsilon a).
Qed.

(** A command that keeps every property neutral events keep leaves
    [delta] as it was. *)
Lemma delta_unchanged `{Torch} {A} (c : M A) :
  (forall I : tensor -> list Event -> Prop,
     (forall d l e, neutral e -> I d l -> I d (l ++ [e])) ->
     preserves (holds I) c) ->
  forall s, delta (state_of (c s)) = delta s.
Proof.
  intros Hc s.
  apply (preserves_state_of (holds (fun d _ => d = delta s)) c); [|reflexivity].
  apply Hc. auto.
Qed.

(** C1: in every inner training step the buffer becomes
    clamp(delta + epsilon * sign(grad), -epsilon, +epsilon), element by
    element, where grad is what the backward pass of the cross-entropy
    loss of net(inputs + delta) yields for the adversarial input in that
    step, and epsilon is the --epsilon argument (8/255 by default). *)
Theorem delta_update_is_clamped_sign_ascent `{Torch}
    (a : Args.t) (b : Batch) (st : Stats) (s : State) :
  let eps := Args.epsilon a in
  let adv := Tensor.add (inputs b) (delta s) in
  let fw := net_forward adv (zero_grad (world s)) in
  let grad := (backward (cross_entropy fw.1 (targets b)) adv fw.2).1 in
  let s' := state_of (inner_step (globals a) b st s) in
  (exists st', inner_step (globals a) b st s = Ok st' s') /\
  delta s' =
    Tensor.clamp (Tensor.add (delta s) (Tensor.scale eps (Tensor.sign grad)))
      (- eps) eps /\
  Tensor.data (delta s') =
    zip_with (fun d gr => Qmin (Qmax (d + eps * Tensor.sgn gr) (- eps)) eps)
      (Tensor.data (delta s)) (Tensor.data grad) /\
  Tensor.shape (delta s') = Tensor.shape (delta s) /\
  Args.epsilon default_args = 8 # 255.
Proof.
  cbv zeta. rewrite inner_step_run. unfold step_state. cbn [state_of delta].
  split; [eauto|]. split; [reflexivity|].
  split; [apply next_delta_data|]. split; reflexivity.
Qed.

(** C2 (amended): for every training batch the inner loop ends normally
    after exactly max(m, 0) iterations (m from --m, 8 by default); each
    iteration zeroes the gradients, forms inputs + delta, runs the
    forward pass on it, the cross-entropy loss, the backward pass, the
    optimiser step, the sign-gradient update and the clamp, in this
    order; and iteration i+1 starts from the state, and so the buffer,
    that iteration i left. *)
Theorem train_batch_iterations `{Torch}
    (a : Args.t) (b : Batch) (st : Stats) (s : State) :
  let g := globals a in
  let eps := Args.epsilon a in
  let n := Z.to_nat (Args.m a) in
  Z.of_nat n = Z.max (Args.m a) 0 /\
  Args.m default_args = 8%Z /\
  (exists st', train_batch g b st s = Ok st' (Nat.iter n (step_state g b) s)) /\
  (forall st0 s0,
     let adv := Tensor.add (inputs b) (delta s0) in
     let fw := net_forward adv (zero_grad (world s0)) in
     let bw := backward (cross_entropy fw.1 (targets b)) adv fw.2 in
     let d1 := Tensor.add (delta s0) (Tensor.scale eps (Tensor.sign bw.1)) in
     let d2 := Tensor.clamp d1 (- eps) eps in
     inner_step g b st0 s0 = Ok (step_stats b st0 s0) (step_state g b s0) /\
     world (step_state g b s0) = optimizer_step bw.2 /\
     delta (step_state g b s0) = d2 /\
     log (step_state g b s0) =
       log s0 ++ [EvZeroGrad; EvAdv (inputs b) (delta s0); EvForward adv;
                  EvCrossEntropy; EvBackward bw.1; EvOptimizerStep;
                  EvDeltaStep d1; EvDeltaClamp d2]).
Proof.
  cbv zeta. split; [lia|]. split; [reflexivity|]. split.
  - destruct (inner_loop_iter (globals a) b (range 0 (m (globals a))) st s)
      as [st' Hrun].
    exists st'. unfold train_batch. rewrite Hrun. unfold range.
    now rewrite length_seqZ, Z.sub_0_r.
  - intros st0 s0. split; [apply inner_step_run|]. now repeat split.
Qed.

(** C2 as stated fails for a negative --m: with --m -1 a batch gets no
    iteration at all (not -1 of them), and the state is left as it was. *)
Lemma train_batch_negative_m :
  let a := Toy.args_of (-1) None in
  let s := Toy.start a in
  Args.m a = (-1)%Z /\
  train_batch (globals a) Toy.batch (mkStats 0 0 0) s = Ok (mkStats 0 0 0) s /\
  log s = [].
Proof. cbv zeta. repeat split. Qed.

(** C3: the buffer is created once, as the zero tensor of shape
    (batch_size, 3, 32, 32); in a whole run of the script, however it
    ends, every read of delta sees the value the last clamp before it
    assigned (across batch and epoch boundaries), or the zero tensor
    when there was none; the buffer ends as the last clamp left it; and
    what the script does between two inner iterations (fetching a batch,
    the accuracy, the tests, the checkpoint, the learning rate, resuming,
    the final evaluation) leaves the buffer as it was. *)
Theorem delta_persists `{Torch} (a : Args.t) (w : World) (f : FS) :
  let zeros := Tensor.zeros [Args.batch_size a; 3; 32; 32]%Z in
  let s := state_of (main a w f) in
  delta (initial_state (globals a) w f) = zeros /\
  Tensor.shape zeros = [Args.batch_size a; 3; 32; 32]%Z /\
  Forall (fun x => x = 0) (Tensor.data zeros) /\
  persistent zeros (log s) /\
  delta s = current_delta zeros (log s) /\
  (forall s1 : State,
     (forall op, delta (state_of (call op s1)) = delta s1) /\
     (delta (state_of (call_ret train_next s1)) = delta s1) /\
     (forall c t, delta (state_of (percent c t s1)) = delta s1) /\
     (forall atk epoch, delta (state_of (test_with atk epoch s1)) = delta s1) /\
     (forall g epoch acc tmp_acc,
        delta (state_of (save_if_best g epoch acc tmp_acc s1)) = delta s1) /\
     (forall epoch, delta (state_of (adjust_learning_rate epoch s1)) = delta s1) /\
     (forall g, delta (state_of (resume_from_checkpoint g s1)) = delta s1) /\
     (forall g, delta (state_of (final_evaluation g s1)) = delta s1)).
Proof.
  cbv zeta. split; [reflexivity|]. split; [reflexivity|].
  split; [now apply Forall_replicate|].
  set (zeros := Tensor.zeros _).
  assert (Hrun : persistent zeros (log (state_of (main a w f))) /\
                 delta (state_of (main a w f)) =
                 current_delta zeros (log (state_of (main a w f)))).
  { apply (main_holds (fun d l => persistent zeros l /\ d = current_delta zeros l)).
    - intros d l e He [Hp Hd]. rewrite persistent_app, current_delta_app.
      repeat split; [exact Hp|now destruct e|now destruct e].
    - intros d l b grad [Hp Hd]. rewrite persistent_app, current_delta_app.
      cbn. rewrite <- Hd. now repeat split.
    - now split. }
  split; [apply Hrun|]. split; [apply Hrun|].
  intros s1. repeat split; intros; try reflexivity;
    apply delta_unchanged; intros I HI;
    first [ apply keeps_percent | apply keeps_test_with
          | apply keeps_save_if_best | apply keeps_adjust_learning_rate
          | apply keeps_resume_from_checkpoint | apply keeps_final_evaluation ];
    exact HI.
Qed.

(** * Evaluation and checkpoints *)

Lemma Qltb_lt x y : Qltb x y = true <-> x < y.
Proof.
  unfold Qltb. rewrite Qlt_alt.
  destruct (x ?= y); split; intros; congruence.
Qed.

Lemma Qltb_max x y : (if Qltb x y then y else x) = Qmax x y.
Proof. unfold Qltb, Qmax, GenericMinMax.gmax. now destruct (x ?= y). Qed.

Lemma perturbs_app l l' : perturbs (l ++ l') = perturbs l ++ perturbs l'.
Proof. apply omap_app. Qed.
Lemma test_accs_app l l' : test_accs (l ++ l') = test_accs l ++ test_accs l'.
Proof. apply omap_app. Qed.
Lemma saves_app l l' : saves (l ++ l') = saves l ++ saves l'.
Proof. apply omap_app. Qed.

Lemma quiet_app l l' : quiet l -> quiet l' -> quiet (l ++ l').
Proof.
  intros (Hp & Ht & Hs) (Hp' & Ht' & Hs'). unfold quiet.
  now rewrite perturbs_app, test_accs_app, saves_app, Hp, Ht, Hs, Hp', Ht', Hs'.
Qed.

Lemma quiet_batch_events eps b grads : forall d, quiet (batch_events eps b d grads).
Proof.
  induction grads as [|grad grads IH]; intros d; cbn [batch_events].
  - now repeat split.
  - apply quiet_app; [now repeat split|apply IH].
Qed.

Section Evaluation.
Context `{Torch}.

Lemma test_batch_run atk acc b s :
  test_batch atk acc b s =
  Ok (acc.1 + n_correct
                (net_forward (perturb atk (inputs b) (targets b) (world s)).1
                   (perturb atk (inputs b) (targets b) (world s)).2).1
                (targets b),
      acc.2 + Z.of_nat (length (targets b)))%Z
     (mkState
        (net_forward (perturb atk (inputs b) (targets b) (world s)).1
           (perturb atk (inputs b) (targets b) (world s)).2).2
        (fs s) (delta s) (max_acc s) (start_epoch s)
        (log s ++ [EvPerturb atk;
                   EvForward (perturb atk (inputs b) (targets b) (world s)).1])).
Proof. unfold test_batch. run_monad. now rewrite <- !app_assoc. Qed.

(** The loop of a test function over the batches [l]: one [perturb] call
    with the function's attack object per batch, nothing else of note. *)
Lemma test_loop_run atk (l : list Batch) : forall acc s,
  exists evs w' c',
    foldM (test_batch atk) l acc s
    = Ok (c', (acc.2 + targets_total l)%Z)
        (mkState w' (fs s) (delta s) (max_acc s) (start_epoch s) (log s ++ evs)) /\
    perturbs evs = replicate (length l) atk /\
    test_accs evs = [] /\ saves evs = [].
Proof.
  induction l as [|b l IH]; intros acc s.
  - exists [], (world s), acc.1. cbn. rewrite app_nil_r, Z.add_0_r.
    now destruct s, acc.
  - cbn [foldM]. unfold mbind, M_bind. rewrite test_batch_run.
    match goal with |- context [foldM _ l ?acc1 ?s1] =>
      destruct (IH acc1 s1) as (evs & w' & c' & Hrun & Hp & Ht & Hs)
    end.
    cbn in Hrun. rewrite Hrun.
    exists ([EvPerturb atk;
             EvForward (perturb atk (inputs b) (targets b) (world s)).1] ++ evs),
      w', c'.
    rewrite perturbs_app, test_accs_app, saves_app, Hp, Ht, Hs, <- app_assoc.
    cbn. repeat split. unfold targets_total. do 2 f_equal. lia.
Qed.

(** A test function: it raises exactly when the test set is empty, and
    otherwise returns and prints the accuracy after one [perturb] call
    with its attack object per test batch. *)
Lemma test_with_run atk epoch s :
  exists evs w' c,
    perturbs evs = replicate (length testloader) atk /\
    test_accs evs = [] /\ saves evs = [] /\
    test_with atk epoch s =
      if decide (test_total = 0)%Z then
        Raise ZeroDivisionError
          (mkState w' (fs s) (delta s) (max_acc s) (start_epoch s)
             (log s ++ EvNetEval :: evs))
      else
        Ok (100 * inject_Z c / inject_Z test_total)
          (mkState w' (fs s) (delta s) (max_acc s) (start_epoch s)
             (log s ++ EvNetEval :: evs ++
                [EvTestAcc epoch (100 * inject_Z c / inject_Z test_total)])).
Proof.
  unfold test_with. run_monad.
  match goal with |- context [foldM _ testloader ?acc ?s1] =>
    destruct (test_loop_run atk testloader acc s1)
      as (evs & w' & c' & Hrun & Hp & Ht & Hs)
  end.
  cbn in Hrun. exists evs, w', c'. rewrite Hrun. cbn.
  repeat (split; [assumption|]).
  unfold percent, test_total. rewrite Z.add_0_l.
  case_decide; run_monad; rewrite <- !app_assoc; reflexivity.
Qed.

End Evaluation.

Section Epoch.
Context `{Torch}.

(** The loop over the training batches never raises, and it logs
    training iterations only. *)
Lemma train_loop_run g (l : list nat) : forall st s,
  exists st' s' evs,
    foldM (fun st _ => train_next_batch g st) l st s = Ok st' s' /\
    log s' = log s ++ evs /\ quiet evs /\
    fs s' = fs s /\ max_acc s' = max_acc s.
Proof.
  induction l as [|i l IH]; intros st s.
  - exists st, s, []. cbn. rewrite app_nil_r. now repeat split.
  - cbn [foldM]. unfold mbind at 1, M_bind at 1.
    unfold train_next_batch at 1, train_batch. run_monad.
    match goal with |- context [foldM _ (range _ _) ?st1 ?s1] =>
      destruct (inner_loop_run g (train_next (world s)).1 (range 0 (m g)) st1 s1)
        as (grads & st1' & s1' & Hrun & _ & Hlog & _ & Hfs & Hmax & _)
    end.
    rewrite Hrun.
    destruct (IH st1' s1') as (st' & s' & evs & Hrun' & Hlog' & Hq & Hfs' & Hmax').
    exists st', s', (batch_events (epsilon g) (train_next (world s)).1 (delta s) grads ++ evs).
    split; [exact Hrun'|].
    rewrite Hlog', Hlog, Hfs', Hfs, Hmax', Hmax, <- app_assoc. cbn.
    split; [reflexivity|].
    split; [apply quiet_app; [apply quiet_batch_events|exact Hq]|].
    now split.
Qed.

Lemma train_batches_run g s :
  exists st' s' evs,
    train_batches g s = Ok st' s' /\
    log s' = log s ++ evs /\ quiet evs /\
    fs s' = fs s /\ max_acc s' = max_acc s.
Proof.
  unfold train_batches. unfold mbind, M_bind, call, modify.
  match goal with |- context [foldM _ _ ?st1 ?s1] =>
    destruct (train_loop_run g (seq 0 train_len) st1 s1)
      as (st' & s' & evs & Hrun & Hlog & Hq & Hfs & Hmax)
  end.
  exists st', s', evs. split; [exact Hrun|]. now split.
Qed.


Lemma bind_run {A B} (c : M A) (k : A -> M B) s :
  (c ≫= k) s = match c s with Ok a s' => k a s' | Raise e s' => Raise e s' end.
Proof. reflexivity. Qed.

(** [os.mkdir], case by case. *)
Lemma mkdir_run d s :
  mkdir d s =
  if bool_decide (d ∈ dirs (fs s)) || bool_decide (is_Some (files (fs s) !! d))
  then Raise (FileExistsError d) (add_event (EvMkdir d) s)
  else Ok tt (mkState (world s) (mkFS ({[d]} ∪ dirs (fs s)) (files (fs s)))
                (delta s) (max_acc s) (start_epoch s) (log s ++ [EvMkdir d])).
Proof.
  unfold mkdir. rewrite bind_run. unfold emit at 1, modify at 1.
  rewrite bind_run. unfold get at 1. cbn [add_event fs].
  now destruct (_ || _).
Qed.

(** [torch.save], by what the write does. *)
Lemma torch_save_run ck p s :
  torch_save ck p s =
  match write_file p ck (fs s) with
  | inl e => Raise e (add_event (EvSave p) s)
  | inr f' => Ok tt (mkState (world s) f' (delta s) (max_acc s) (start_epoch s)
                       (log s ++ [EvSave p]))
  end.
Proof.
  unfold torch_save. rewrite bind_run. unfold emit at 1, modify at 1.
  rewrite bind_run. unfold get at 1. cbn [add_event fs].
  now destruct (write_file p ck (fs s)).
Qed.

(** A write that succeeds leaves the checkpoint at the path and the
    directories as they were. *)
Lemma write_file_ok p ck f f' :
  write_file p ck f = inr f' ->
  files f' !! p = Some ck /\ dirs f' = dirs f.
Proof.
  unfold write_file. intros Hw.
  destruct (checkpoint_entry p).
  - repeat case_bool_decide; try discriminate Hw.
    injection Hw as <-. cbn. now rewrite lookup_insert_eq.
  - destruct (save_elsewhere _ _ _) as [k|al]; [discriminate Hw|].
    injection Hw as <-. cbn. now rewrite lookup_insert_eq.
Qed.

(** The path of the best checkpoint is a file name in './checkpoint/'
    exactly when 'best' + datasets is a file name. *)
Lemma checkpoint_entry_best g :
  checkpoint_entry (best_path g) =
  if file_name ("best" +:+ Args.datasets (args g))
  then Some ("best" +:+ Args.datasets (args g)) else None.
Proof. reflexivity. Qed.

(** Lines 209-222: nothing happens unless the new accuracy is strictly
    above [max_acc]; then [max_acc] takes it, the directory is created if
    it is missing, and the checkpoint is written; [os.mkdir] and
    [torch.save] can fail, after [max_acc] has changed. *)
Lemma save_if_best_run g epoch acc tmp_acc s :
  save_if_best g epoch acc tmp_acc s =
  if Qltb (max_acc s) tmp_acc then
    let ck := mkCheckpoint (state_dict (world s)) acc epoch
                (get_rng_state (world s)) in
    if bool_decide ("checkpoint" ∈ dirs (fs s)) then
      torch_save ck (best_path g) (set_max_acc tmp_acc s)
    else
      match mkdir "checkpoint" (set_max_acc tmp_acc s) with
      | Ok _ s' => torch_save ck (best_path g) s'
      | Raise e s' => Raise e s'
      end
  else Ok tt s.
Proof.
  unfold save_if_best. rewrite bind_run. unfold get at 1.
  destruct (Qltb (max_acc s) tmp_acc); [|reflexivity].
  rewrite bind_run. unfold modify at 1.
  rewrite bind_run. unfold get at 1. cbn [set_max_acc world].
  rewrite bind_run. unfold isdir, get at 1. cbn [fs].
  destruct (bool_decide _); [reflexivity|].
  rewrite bind_run. reflexivity.
Qed.

End Epoch.

#[local] Arguments test : simpl never.
#[local] Arguments test_50 : simpl never.
#[local] Arguments test_fgsm : simpl never.
#[local] Arguments test_with : simpl never.

Section Exact.
Context `{Torch}.

(** The loop of a test function is the fold of [attacked_batch]. *)
Lemma test_loop_exact atk (l : list Batch) : forall acc s,
  foldM (test_batch atk) l acc s =
  Ok ((foldl (attacked_batch atk) (acc.1, acc.2, world s) l).1)
    (mkState (foldl (attacked_batch atk) (acc.1, acc.2, world s) l).2
       (fs s) (delta s) (max_acc s) (start_epoch s)
       (log s ++ attack_events atk l (world s))).
Proof.
  induction l as [|b l IH]; intros acc s; cbn [foldM foldl attack_events].
  - rewrite app_nil_r. now destruct s, acc.
  - rewrite bind_run, test_batch_run, IH.
    cbn [fst snd world fs delta max_acc start_epoch log].
    unfold attacked_batch at 2 4. cbn [fst snd].
    now rewrite <- app_assoc.
Qed.

Lemma attacked_batch_total atk l : forall r,
  (foldl (attacked_batch atk) r l).1.2 = (r.1.2 + targets_total l)%Z.
Proof.
  induction l as [|b l IH]; intros r; cbn [foldl targets_total foldr].
  - lia.
  - rewrite IH. unfold attacked_batch. cbn [fst snd]. unfold targets_total. lia.
Qed.

Lemma attacked_total atk w : (attacked atk w).1.2 = test_total.
Proof. unfold attacked. now rewrite attacked_batch_total. Qed.

Lemma perturbs_attack_events atk l : forall w,
  perturbs (attack_events atk l w) = replicate (length l) atk.
Proof.
  induction l as [|b l IH]; intros w; [reflexivity|].
  cbn [attack_events length replicate].
  change (perturbs (EvPerturb atk :: EvForward ?x :: ?l')) with (atk :: perturbs l').
  now rewrite IH.
Qed.

Lemma quiet_attack_events atk l : forall w,
  test_accs (attack_events atk l w) = [] /\ saves (attack_events atk l w) = [].
Proof.
  induction l as [|b l IH]; intros w; [now split|].
  cbn [attack_events].
  change (test_accs (EvPerturb atk :: EvForward ?x :: ?l')) with (test_accs l').
  change (saves (EvPerturb atk :: EvForward ?x :: ?l')) with (saves l').
  apply IH.
Qed.

(** A test function: [net.eval()], the attacked batches, and the
    accuracy of their counts, unless the test set is empty. *)
Lemma test_with_exact atk epoch s :
  test_with atk epoch s =
  if decide (test_total = 0)%Z then
    Raise ZeroDivisionError
      (mkState (attacked atk (world s)).2 (fs s) (delta s) (max_acc s)
         (start_epoch s)
         (log s ++ EvNetEval :: attack_events atk testloader (net_eval (world s))))
  else
    Ok (accuracy (attacked atk (world s)))
      (mkState (attacked atk (world s)).2 (fs s) (delta s) (max_acc s)
         (start_epoch s)
         (log s ++ EvNetEval :: attack_events atk testloader (net_eval (world s))
            ++ [EvTestAcc epoch (accuracy (attacked atk (world s)))])).
Proof.
  unfold test_with. rewrite bind_run. unfold emit at 1, modify at 1.
  rewrite bind_run. unfold call at 1, modify at 1.
  rewrite bind_run, test_loop_exact.
  cbn [add_event set_world world fs delta max_acc start_epoch log fst snd].
  fold (attacked atk (world s)).
  rewrite bind_run. unfold percent.
  rewrite (attacked_total atk (world s)).
  case_decide; unfold raise, mret, M_ret; [now rewrite <- app_assoc|].
  rewrite bind_run. unfold emit, modify, add_event, accuracy.
  cbn [world fs delta max_acc start_epoch log].
  rewrite (attacked_total atk (world s)).
  now rewrite <- !app_assoc.
Qed.

(** [train], by the training part, the two divisions and the
    evaluation. *)
Lemma train_exact g epoch s :
  exists st s1 evs,
    train_batches g (set_world (net_train (world s)) (add_event EvNetTrain s))
      = Ok st s1 /\
    log s1 = log s ++ EvNetTrain :: evs /\ quiet evs /\
    fs s1 = fs s /\ max_acc s1 = max_acc s /\
    train g epoch s =
      if decide (total st = 0)%Z then Raise ZeroDivisionError s1
      else
        let acc := 100 * inject_Z (correct st) / inject_Z (total st) in
        let r := attacked (adversary g) (world s1) in
        let l := log s1 ++ EvTrainAcc acc :: EvNetEval ::
                   attack_events (adversary g) testloader (net_eval (world s1)) in
        if decide (test_total = 0)%Z then
          Raise ZeroDivisionError
            (mkState r.2 (fs s1) (delta s1) (max_acc s1) (start_epoch s1) l)
        else
          save_if_best g epoch acc (accuracy r)
            (mkState r.2 (fs s1) (delta s1) (max_acc s1) (start_epoch s1)
               (l ++ [EvTestAcc epoch (accuracy r)])).
Proof.
  destruct (train_batches_run g
              (set_world (net_train (world (add_event EvNetTrain s)))
                 (add_event EvNetTrain s)))
    as (st & s1 & evs & Hrun & Hlog & Hq & Hfs & Hmax).
  exists st, s1, evs. split; [exact Hrun|].
  cbn [set_world add_event log fs max_acc] in Hlog, Hfs, Hmax.
  rewrite <- app_assoc in Hlog. split; [exact Hlog|].
  split; [exact Hq|]. split; [exact Hfs|]. split; [exact Hmax|].
  unfold train. rewrite bind_run. unfold emit at 1, modify at 1.
  rewrite bind_run. unfold call at 1, modify at 1.
  rewrite bind_run.
  change (set_world (net_train (world (add_event EvNetTrain s))) (add_event EvNetTrain s))
    with (set_world (net_train (world s)) (add_event EvNetTrain s)) in Hrun |- *.
  rewrite Hrun. rewrite bind_run. unfold percent.
  case_decide as Htot; [reflexivity|].
  unfold mret at 1, M_ret at 1. rewrite bind_run. unfold emit at 1, modify at 1.
  rewrite bind_run. unfold test. rewrite test_with_exact.
  cbn [add_event world fs delta max_acc start_epoch log].
  cbv zeta. case_decide as Htest.
  - now rewrite <- !app_assoc.
  - now rewrite <- !app_assoc.
Qed.

End Exact.

Section SaveStep.
Context `{Torch}.

Lemma best_path_not_checkpoint g : best_path g <> "checkpoint".
Proof. unfold best_path. cbn. discriminate. Qed.

(** What lines 209-222 do, however they end. *)
Lemma save_if_best_spec g epoch acc tmp_acc s :
  let ck := mkCheckpoint (state_dict (world s)) acc epoch (get_rng_state (world s)) in
  let o := save_if_best g epoch acc tmp_acc s in
  world (state_of o) = world s /\ delta (state_of o) = delta s /\
  start_epoch (state_of o) = start_epoch s /\
  exists evs,
    log (state_of o) = log s ++ evs /\
    perturbs evs = [] /\ test_accs evs = [] /\
    Forall (fun p => p = best_path g) (saves evs) /\
    Forall (fun e => e = EvMkdir "checkpoint" \/ e = EvSave (best_path g)) evs /\
    if Qltb (max_acc s) tmp_acc then
      max_acc (state_of o) = tmp_acc /\
      dirs (fs s) ⊆ dirs (fs (state_of o)) /\
      dirs (fs (state_of o)) ⊆ {["checkpoint"]} ∪ dirs (fs s) /\
      match o with
      | Ok _ s' =>
          saves evs = [best_path g] /\
          files (fs s') !! best_path g = Some ck /\
          (file_name ("best" +:+ Args.datasets (args g)) = true ->
           files (fs s') = <[best_path g := ck]> (files (fs s)) /\
           "checkpoint" ∈ dirs (fs s'))
      | Raise e s' =>
          files (fs s') = files (fs s) /\ ~ can_write g (fs s) /\
          not_assertion e /\ e <> ZeroDivisionError
      end
    else o = Ok tt s /\ evs = [].
Proof.
  cbv zeta. rewrite save_if_best_run.
  destruct (Qltb (max_acc s) tmp_acc) eqn:Hlt.
  2:{ cbn [state_of]. repeat split. exists []. rewrite app_nil_r.
      repeat split; constructor. }
  cbv zeta.
  set (ck := mkCheckpoint (state_dict (world s)) acc epoch (get_rng_state (world s))).
  assert (Hsave : forall s1,
    max_acc s1 = tmp_acc -> "checkpoint" ∈ dirs (fs s1) ->
    let o := torch_save ck (best_path g) s1 in
    world (state_of o) = world s1 /\ delta (state_of o) = delta s1 /\
    start_epoch (state_of o) = start_epoch s1 /\
    log (state_of o) = log s1 ++ [EvSave (best_path g)] /\
    max_acc (state_of o) = tmp_acc /\ dirs (fs (state_of o)) = dirs (fs s1) /\
    match o with
    | Ok _ s' =>
        files (fs s') !! best_path g = Some ck /\
        (file_name ("best" +:+ Args.datasets (args g)) = true ->
         files (fs s') = <[best_path g := ck]> (files (fs s1)))
    | Raise e s' =>
        files (fs s') = files (fs s1) /\
        (file_name ("best" +:+ Args.datasets (args g)) = true -> best_path g ∈ dirs (fs s1)) /\
        not_assertion e /\ e <> ZeroDivisionError
    end).
  { intros s1 Hmax Hdir. cbv zeta. rewrite torch_save_run.
    destruct (write_file (best_path g) ck (fs s1)) as [e|f'] eqn:Hw; cbn [state_of].
    - do 6 (split; [reflexivity || exact Hmax|]).
      split; [reflexivity|].
      unfold write_file in Hw. rewrite checkpoint_entry_best in Hw.
      destruct (file_name _) eqn:Hname.
      + rewrite bool_decide_eq_true_2 in Hw by exact Hdir.
        case_bool_decide as Hd; [|discriminate Hw].
        injection Hw as <-. split; [now intros _|]. now split.
      + destruct (save_elsewhere _ _ _) as [k|al]; [|discriminate Hw].
        injection Hw as <-. split; [discriminate|]. now destruct k.
    - destruct (write_file_ok _ _ _ _ Hw) as [Hf Hd].
      cbn [world delta start_epoch log max_acc fs].
      do 6 (split; [reflexivity || exact Hmax || exact Hd|]).
      split; [exact Hf|]. intros Hname.
      unfold write_file in Hw. rewrite checkpoint_entry_best, Hname in Hw.
      rewrite bool_decide_eq_true_2 in Hw by exact Hdir.
      case_bool_decide; [discriminate Hw|]. now injection Hw as <-. }
  destruct (bool_decide ("checkpoint" ∈ dirs (fs s))) eqn:Hdir.
  - apply bool_decide_eq_true in Hdir.
    destruct (Hsave (set_max_acc tmp_acc s) eq_refl Hdir)
      as (Hw & Hd & He & Hl & Hm & Hds & Hpost).
    cbn [set_max_acc world delta start_epoch log fs] in *.
    split; [exact Hw|]. split; [exact Hd|]. split; [exact He|].
    exists [EvSave (best_path g)]. split; [exact Hl|].
    split; [reflexivity|]. split; [reflexivity|].
    split; [now repeat constructor|]. split; [repeat (constructor; [auto|]); constructor|].
    split; [exact Hm|]. rewrite Hds.
    split; [reflexivity|]. split; [apply union_subseteq_r|].
    destruct (torch_save ck (best_path g) _) as [[] s'|e s'].
    + destruct Hpost as [Hf Hn]. split; [reflexivity|]. split; [exact Hf|].
      intros Hname. split; [now apply Hn|]. cbn [state_of] in Hds. now rewrite Hds.
    + destruct Hpost as (Hf & Hn & Hna & Hz). split; [exact Hf|].
      split; [|now split]. intros (Hname & _ & Hnd). now apply Hnd, Hn.
  - apply bool_decide_eq_false in Hdir. rewrite mkdir_run.
    rewrite (bool_decide_eq_false_2 _ Hdir). cbn [orb set_max_acc fs].
    case_bool_decide as Hfile.
    + cbn [state_of add_event set_max_acc world delta start_epoch log max_acc fs].
      repeat (split; [reflexivity|]).
      exists [EvMkdir "checkpoint"]. split; [reflexivity|].
      split; [reflexivity|]. split; [reflexivity|].
      split; [constructor|]. split; [repeat (constructor; [auto|]); constructor|].
      split; [reflexivity|]. split; [reflexivity|]. split; [apply union_subseteq_r|].
      split; [reflexivity|]. split; [|now split].
      intros (_ & Hnone & _). rewrite Hnone in Hfile. now destruct Hfile.
    + match goal with |- context [torch_save ck (best_path g) ?s1] =>
        destruct (Hsave s1 eq_refl) as (Hw & Hd & He & Hl & Hm & Hds & Hpost);
          [cbn; apply elem_of_union; left; now apply elem_of_singleton|]
      end.
      cbn [world delta start_epoch log fs dirs files] in *.
      split; [exact Hw|]. split; [exact Hd|]. split; [exact He|].
      exists [EvMkdir "checkpoint"; EvSave (best_path g)].
      split; [rewrite Hl, <- app_assoc; reflexivity|].
      split; [reflexivity|]. split; [reflexivity|].
      split; [now repeat constructor|]. split; [repeat (constructor; [auto|]); constructor|].
      split; [exact Hm|]. rewrite Hds.
      split; [apply union_subseteq_r|]. split; [reflexivity|].
      destruct (torch_save ck (best_path g) _) as [[] s'|e s'].
      * destruct Hpost as [Hf Hn]. split; [reflexivity|]. split; [exact Hf|].
        intros Hname. split; [now apply Hn|]. cbn [state_of] in Hds. rewrite Hds.
        apply elem_of_union. left. now apply elem_of_singleton.
      * destruct Hpost as (Hf & Hn & Hna & Hz). split; [exact Hf|].
        split; [|now split]. intros (Hname & _ & Hnd).
        specialize (Hn Hname). apply elem_of_union in Hn.
        destruct Hn as [Hn|Hn]; [|now apply Hnd].
        apply elem_of_singleton in Hn. now apply best_path_not_checkpoint in Hn.
Qed.

End SaveStep.

Section EpochEnd.
Context `{Torch}.

(** One call of [train], by its outcome: what it logs, and what it does
    to [max_acc] and the files. *)
Lemma train_spec g epoch s :
  exists evs,
    log (state_of (train g epoch s)) = log s ++ evs /\
    Forall (fun p => p = best_path g) (saves evs) /\
    dirs (fs s) ⊆ dirs (fs (state_of (train g epoch s))) /\
    dirs (fs (state_of (train g epoch s))) ⊆ {["checkpoint"]} ∪ dirs (fs s) /\
    match train g epoch s with
    | Ok _ s' =>
        exists acc tmp_acc,
          EvTrainAcc acc ∈ evs /\ EvTestAcc epoch tmp_acc ∈ evs /\
          perturbs evs = replicate (length testloader) (adversary g) /\
          test_accs evs = [tmp_acc] /\
          if Qltb (max_acc s) tmp_acc then
            max_acc s' = tmp_acc /\ saves evs = [best_path g] /\
            files (fs s') !! best_path g =
              Some (mkCheckpoint (state_dict (world s')) acc epoch
                      (get_rng_state (world s'))) /\
            (file_name ("best" +:+ Args.datasets (args g)) = true ->
             files (fs s') =
               <[best_path g :=
                   mkCheckpoint (state_dict (world s')) acc epoch
                     (get_rng_state (world s'))]> (files (fs s)) /\
             "checkpoint" ∈ dirs (fs s'))
          else max_acc s' = max_acc s /\ saves evs = [] /\ fs s' = fs s
    | Raise e s' =>
        files (fs s') = files (fs s) /\ not_assertion e /\
        ((e = ZeroDivisionError /\ fs s' = fs s /\ max_acc s' = max_acc s /\
          saves evs = [] /\ test_accs evs = []) \/
         (e <> ZeroDivisionError /\ ~ can_write g (fs s) /\
          exists tmp_acc,
            test_accs evs = [tmp_acc] /\ max_acc s < tmp_acc /\
            max_acc s' = tmp_acc))
    end.
Proof.
  destruct (train_exact g epoch s)
    as (st & s1 & evs1 & Hrun & Hlog & (Hp1 & Ht1 & Hs1) & Hfs & Hmax & ->).
  case_decide as Htot.
  { exists (EvNetTrain :: evs1). cbn [state_of]. rewrite Hfs.
    split; [exact Hlog|].
    change (saves (EvNetTrain :: evs1)) with (saves evs1).
    change (test_accs (EvNetTrain :: evs1)) with (test_accs evs1).
    rewrite Hs1, Ht1. split; [constructor|]. split; [reflexivity|].
    split; [apply union_subseteq_r|]. split; [reflexivity|]. split; [exact Logic.I|].
    left. now repeat split. }
  cbv zeta.
  set (acc := 100 * inject_Z (correct st) / inject_Z (total st)).
  set (r := attacked (adversary g) (world s1)).
  set (evs2 := attack_events (adversary g) testloader (net_eval (world s1))).
  assert (Hq2 : perturbs evs2 = replicate (length testloader) (adversary g) /\
                test_accs evs2 = [] /\ saves evs2 = []).
  { subst evs2. split; [apply perturbs_attack_events|apply quiet_attack_events]. }
  destruct Hq2 as (Hp2 & Ht2 & Hs2).
  assert (Hevs : forall tl,
    perturbs (EvNetTrain :: evs1 ++ EvTrainAcc acc :: EvNetEval :: evs2 ++ tl)
      = replicate (length testloader) (adversary g) ++ perturbs tl /\
    test_accs (EvNetTrain :: evs1 ++ EvTrainAcc acc :: EvNetEval :: evs2 ++ tl)
      = test_accs tl /\
    saves (EvNetTrain :: evs1 ++ EvTrainAcc acc :: EvNetEval :: evs2 ++ tl)
      = saves tl).
  { intros tl.
    change (EvNetTrain :: evs1 ++ EvTrainAcc acc :: EvNetEval :: evs2 ++ tl)
      with ([EvNetTrain] ++ evs1 ++ [EvTrainAcc acc; EvNetEval] ++ evs2 ++ tl).
    rewrite !perturbs_app, !test_accs_app, !saves_app, Hp1, Ht1, Hs1, Hp2, Ht2, Hs2.
    now repeat split. }
  case_decide as Htest.
  { exists (EvNetTrain :: evs1 ++ EvTrainAcc acc :: EvNetEval :: evs2 ++ []).
    cbn [state_of log fs]. rewrite Hfs, Hmax.
    destruct (Hevs []) as (_ & Ht & Hs). rewrite Ht, Hs.
    split; [rewrite Hlog, app_nil_r, <- app_assoc; reflexivity|].
    split; [constructor|]. split; [reflexivity|].
    split; [apply union_subseteq_r|]. split; [reflexivity|]. split; [exact Logic.I|].
    left. now repeat split. }
  match goal with |- context [save_if_best g epoch acc ?tmp ?s2] =>
    pose proof (save_if_best_spec g epoch acc tmp s2) as Hsave
  end.
  cbv zeta in Hsave.
  destruct Hsave as (Hw & _ & _ & evs' & Hl & Hp & Ht & Hsv & _ & Hif).
  cbn [world max_acc fs log] in Hw, Hl, Hif.
  set (tmp_acc := accuracy r) in *.
  exists (EvNetTrain :: evs1 ++ EvTrainAcc acc :: EvNetEval :: evs2
            ++ EvTestAcc epoch tmp_acc :: evs').
  destruct (Hevs (EvTestAcc epoch tmp_acc :: evs')) as (Hpa & Hta & Hsa).
  change (perturbs (EvTestAcc epoch tmp_acc :: evs')) with (perturbs evs') in Hpa.
  change (test_accs (EvTestAcc epoch tmp_acc :: evs')) with (tmp_acc :: test_accs evs') in Hta.
  change (saves (EvTestAcc epoch tmp_acc :: evs')) with (saves evs') in Hsa.
  rewrite Hp, app_nil_r in Hpa. rewrite Ht in Hta.
  rewrite Hpa, Hta, Hsa.
  split.
  { rewrite Hl, Hlog, <- !app_assoc. cbn. now rewrite <- ?app_assoc. }
  clear Hl. split; [exact Hsv|].
  assert (Hin1 : EvTrainAcc acc ∈
            EvNetTrain :: evs1 ++ EvTrainAcc acc :: EvNetEval :: evs2
              ++ EvTestAcc epoch tmp_acc :: evs').
  { right. apply elem_of_app. right. left. }
  assert (Hin2 : EvTestAcc epoch tmp_acc ∈
            EvNetTrain :: evs1 ++ EvTrainAcc acc :: EvNetEval :: evs2
              ++ EvTestAcc epoch tmp_acc :: evs').
  { right. apply elem_of_app. right. do 2 right. apply elem_of_app. right. left. }
  rewrite ?Hmax, ?Hfs in Hif, Hw |- *.
  destruct (Qltb (max_acc s) tmp_acc) eqn:Hlt.
  - destruct Hif as (Hm & Hd1 & Hd2 & Hpost).
    split; [exact Hd1|]. split; [exact Hd2|].
    destruct (save_if_best g epoch acc tmp_acc _) as [[] s'|e s'];
      cbn [state_of] in *.
    + destruct Hpost as (Hs' & Hf & Hn).
      exists acc, tmp_acc. rewrite Hlt, Hw.
      split; [exact Hin1|]. split; [exact Hin2|].
      split; [reflexivity|]. split; [reflexivity|]. split; [exact Hm|].
      split; [exact Hs'|]. split; [exact Hf|exact Hn].
    + destruct Hpost as (Hf & Hcw & Hna & Hz).
      split; [exact Hf|]. split; [exact Hna|]. right.
      split; [exact Hz|]. split; [exact Hcw|].
      exists tmp_acc. split; [reflexivity|]. split; [now apply Qltb_lt|exact Hm].
  - destruct Hif as [-> ->]. cbn [state_of fs max_acc].
    split; [reflexivity|]. split; [apply union_subseteq_r|].
    exists acc, tmp_acc. rewrite Hlt.
    split; [exact Hin1|]. split; [exact Hin2|]. now repeat split.
Qed.

End EpochEnd.

(** C5 (amended): at the end of every training epoch the model is
    evaluated under one fixed attack configuration, PGD with 20
    iterations (eps 8/255, step 2/255): after the training part and the
    training accuracy, [train] calls [net.eval()], attacks every test
    batch with that attack and classifies what the attack returns, and
    makes no other call of the framework; the accuracy of these
    predictions decides the checkpoint: when it is strictly above
    [max_acc] it becomes [max_acc] and the checkpoint of the network as
    that evaluation left it is written to './checkpoint/best' +
    datasets, and otherwise [max_acc] and the files stay as they were.
    [train] raises when a count it divides by is zero, or when
    [os.mkdir] or [torch.save] fails. *)
Theorem epoch_end_evaluates_pgd20_only `{Torch}
    (a : Args.t) (epoch : Z) (s : State) :
  let g := globals a in
  let pgd20 := LinfPGDAttack ReductionSum (8 # 255) 20 (2 # 255) true 0 1 false in
  adversary g = pgd20 /\
  (forall r b,
     let p := perturb pgd20 (inputs b) (targets b) r.2 in
     let o := net_forward p.1 p.2 in
     attacked_batch pgd20 r b =
       ((r.1.1 + n_correct o.1 (targets b))%Z,
        (r.1.2 + Z.of_nat (length (targets b)))%Z, o.2)) /\
  exists st s1,
    train_batches g (set_world (net_train (world s)) (add_event EvNetTrain s))
      = Ok st s1 /\
    let acc := 100 * inject_Z (correct st) / inject_Z (total st) in
    let r := foldl (attacked_batch pgd20) (0%Z, 0%Z, net_eval (world s1)) testloader in
    let tmp_acc := 100 * inject_Z r.1.1 / inject_Z r.1.2 in
    let evs := EvTrainAcc acc :: EvNetEval ::
                 attack_events pgd20 testloader (net_eval (world s1)) in
    perturbs evs = replicate (length testloader) pgd20 /\
    match train g epoch s with
    | Ok _ s' =>
        total st <> 0%Z /\ r.1.2 <> 0%Z /\
        world s' = r.2 /\
        (exists evs', log s' = log s1 ++ evs ++ EvTestAcc epoch tmp_acc :: evs' /\
                      perturbs evs' = [] /\ test_accs evs' = [] /\
                      saves evs' = if Qltb (max_acc s) tmp_acc then [best_path g] else []) /\
        if Qltb (max_acc s) tmp_acc then
          max_acc s' = tmp_acc /\
          files (fs s') !! best_path g =
            Some (mkCheckpoint (state_dict r.2) acc epoch (get_rng_state r.2))
        else max_acc s' = max_acc s /\ fs s' = fs s
    | Raise e s' =>
        (total st = 0%Z /\ e = ZeroDivisionError /\ s' = s1) \/
        (total st <> 0%Z /\ world s' = r.2 /\ files (fs s') = files (fs s) /\
         ((r.1.2 = 0%Z /\ e = ZeroDivisionError /\ log s' = log s1 ++ evs /\
           fs s' = fs s /\ max_acc s' = max_acc s) \/
          (r.1.2 <> 0%Z /\ e <> ZeroDivisionError /\ max_acc s < tmp_acc /\
           max_acc s' = tmp_acc /\ ~ can_write g (fs s))))
    end.
Proof.
  cbv zeta. set (g := globals a). split; [reflexivity|]. split; [reflexivity|].
  destruct (train_exact g epoch s)
    as (st & s1 & evs1 & Hrun & Hlog & Hq & Hfs & Hmax & ->).
  exists st, s1. split; [exact Hrun|].
  split.
  { change (perturbs (EvTrainAcc ?x :: EvNetEval :: ?l)) with (perturbs l).
    apply perturbs_attack_events. }
  case_decide as Htot; [left; now repeat split|].
  cbv zeta. change (adversary g)
    with (LinfPGDAttack ReductionSum (8 # 255) 20 (2 # 255) true 0 1 false).
  set (pgd20 := LinfPGDAttack ReductionSum (8 # 255) 20 (2 # 255) true 0 1 false).
  fold (attacked pgd20 (world s1)).
  pose proof (attacked_total pgd20 (world s1)) as Htt.
  fold (accuracy (attacked pgd20 (world s1))).
  set (r := attacked pgd20 (world s1)) in *.
  case_decide as Htest.
  { right. split; [exact Htot|]. split; [reflexivity|]. cbn [fs files].
    split; [now rewrite Hfs|]. left.
    split; [now rewrite Htt|]. now repeat split. }
  match goal with |- context [save_if_best g epoch ?acc ?tmp ?s2] =>
    pose proof (save_if_best_spec g epoch acc tmp s2) as Hsave
  end.
  cbv zeta in Hsave.
  destruct Hsave as (Hw & _ & _ & evs' & Hl & Hp & Ht & Hsv & _ & Hif).
  cbn [world max_acc fs log] in Hw, Hl, Hif.
  destruct (save_if_best g epoch _ _ _) as [[] s'|e s']; cbn [state_of] in *;
    rewrite Hmax, ?Hfs in Hif.
  - split; [exact Htot|]. split; [now rewrite Htt|]. split; [exact Hw|].
    destruct (Qltb (max_acc s) (accuracy r)) eqn:Hlt.
    + destruct Hif as (Hm & _ & _ & Hs1 & Hf & _).
      split; [|now split].
      exists evs'. rewrite Hl, <- !app_assoc. cbn. now repeat split.
    + destruct Hif as [Heq ->]. injection Heq as ->.
      split; [|cbn [max_acc fs]; now split].
      exists []. cbn [log]. rewrite <- !app_assoc. now repeat split.
  - right. split; [exact Htot|]. split; [exact Hw|].
    destruct (Qltb (max_acc s) (accuracy r)) eqn:Hlt; [|now destruct Hif].
    destruct Hif as (Hm & _ & _ & Hf & Hcw & _ & Hz).
    split; [exact Hf|]. right. rewrite Htt.
    split; [exact Htest|]. split; [exact Hz|].
    split; [now apply Qltb_lt|]. now split.
Qed.

(** C5 as stated fails: an epoch of the small instance ends normally
    after a single [perturb] call, made with the PGD-20 object; the
    PGD-50 and FGSM objects are not used. *)
Lemma epoch_end_uses_one_attack :
  let g := globals Toy.args1 in
  let o := train g 0 (Toy.start Toy.args1) in
  (exists s', o = Ok tt s') /\
  perturbs (log (state_of o)) =
    [LinfPGDAttack ReductionSum (8 # 255) 20 (2 # 255) true 0 1 false] /\
  (adversary_50 g ∉ perturbs (log (state_of o))) /\
  (adversary_FGSM g ∉ perturbs (log (state_of o))).
Proof.
  cbv zeta.
  assert (Hp : perturbs (log (state_of
            (train (globals Toy.args1) 0 (Toy.start Toy.args1)))) =
          [LinfPGDAttack ReductionSum (8 # 255) 20 (2 # 255) true 0 1 false])
    by (vm_compute; reflexivity).
  assert (Hok : is_ok (train (globals Toy.args1) 0 (Toy.start Toy.args1)) = true)
    by (vm_compute; reflexivity).
  split; [eexists; exact (is_ok_state_of _ Hok)|].
  split; [exact Hp|]. rewrite Hp.
  split; intros Hin; apply list_elem_of_singleton in Hin; discriminate Hin.
Qed.

(** ** The running maximum *)

Section RunningMax.
Context `{Torch}.

Lemma best_so_far_emit e :
  (forall epoch acc, e <> EvTestAcc epoch acc) -> preserves best_so_far (emit e).
Proof.
  intros He s Hs. unfold best_so_far in *. cbn.
  rewrite test_accs_app. destruct e; cbn; rewrite ?app_nil_r; try exact Hs.
  now destruct (He epoch acc).
Qed.

Lemma best_so_far_train g epoch : preserves best_so_far (train g epoch).
Proof.
  intros s Hs. destruct (train_spec g epoch s) as (evs & Hlog & _ & _ & _ & Hpost).
  unfold best_so_far in *.
  destruct (train g epoch s) as [[] s'|e s']; cbn [state_of] in Hlog.
  - destruct Hpost as (acc & tmp_acc & _ & _ & _ & Ht & Hif).
    rewrite Hlog, test_accs_app, Ht, foldl_app, <- Hs. cbn.
    rewrite <- Qltb_max. destruct (Qltb (max_acc s) tmp_acc); tauto.
  - destruct Hpost as (_ & _ & [(_ & _ & Hmax & _ & Ht)|(_ & _ & tmp_acc & Ht & Hlt & Hmax)]).
    + now rewrite Hlog, test_accs_app, Ht, app_nil_r, Hmax.
    + rewrite Hlog, test_accs_app, Ht, foldl_app, <- Hs. cbn.
      rewrite <- Qltb_max. apply Qltb_lt in Hlt. now rewrite Hlt.
Qed.

Lemma best_so_far_adjust epoch : preserves best_so_far (adjust_learning_rate epoch).
Proof.
  unfold adjust_learning_rate. cbv zeta.
  apply preserves_bind; [now apply best_so_far_emit|intros _].
  intros s Hs. exact Hs.
Qed.

Lemma best_so_far_epoch_loop g epochs : preserves best_so_far (epoch_loop g epochs).
Proof.
  apply preserves_foldM. intros _ epoch.
  apply preserves_bind; [apply best_so_far_adjust|intros _].
  apply best_so_far_train.
Qed.

Lemma best_so_far_resume g : preserves best_so_far (resume_from_checkpoint g).
Proof.
  unfold resume_from_checkpoint, torch_load, isdir.
  destruct (Args.resume (args g)); [|apply preserves_ret].
  repeat first
    [ apply preserves_ret | apply preserves_get | apply preserves_raise
    | apply best_so_far_emit; discriminate
    | apply preserves_bind; [|intros ?]
    | apply preserves_if
    | match goal with |- preserves _ (match ?x with _ => _ end) => destruct x end
    | intros s Hs; exact Hs ].
Qed.

End RunningMax.

(** C6 (amended): in a run of the script, after any number of epochs,
    [max_acc] is the maximum of 0 and the PGD-20 accuracies of the epochs
    so far.  When the next epoch's PGD-20 accuracy is strictly above this
    maximum, [train] raises [max_acc] to it and then creates the
    directory 'checkpoint' if it is missing and writes the checkpoint
    (network state, training accuracy, epoch number, RNG state) to
    './checkpoint/best' + datasets; if [train] ends normally the file
    holds that checkpoint, and where the path is a file name in the
    directory no other file changed.  When the accuracy is not above the
    maximum, nothing is written and the files and [max_acc] stay as they
    were.  When [train] raises, no file has changed: after a
    ZeroDivisionError [max_acc] is unchanged too; any other exception
    comes from [os.mkdir] or [torch.save], which something in the
    working directory blocked, after [max_acc] was raised. *)
Theorem best_checkpoint_written_iff `{Torch}
    (a : Args.t) (w : World) (f : FS) (epochs : list Z) (epoch : Z) :
  let g := globals a in
  let s0 := state_of (resume_from_checkpoint g (initial_state g w f)) in
  let s1 := state_of ((epoch_loop g epochs;; adjust_learning_rate epoch) s0) in
  let best := foldl Qmax 0 (test_accs (log s1)) in
  best_path g = "./checkpoint/best" +:+ Args.datasets a /\
  test_accs (log s0) = [] /\
  max_acc s1 = best /\
  exists evs,
    log (state_of (train g epoch s1)) = log s1 ++ evs /\
    match train g epoch s1 with
    | Ok _ s2 =>
        exists acc tmp_acc,
          EvTrainAcc acc ∈ evs /\
          test_accs evs = [tmp_acc] /\
          (best < tmp_acc ->
             saves evs = [best_path g] /\
             files (fs s2) !! best_path g =
               Some (mkCheckpoint (state_dict (world s2)) acc epoch
                       (get_rng_state (world s2))) /\
             (file_name ("best" +:+ Args.datasets a) = true ->
              files (fs s2) =
                <[best_path g :=
                    mkCheckpoint (state_dict (world s2)) acc epoch
                      (get_rng_state (world s2))]> (files (fs s1))) /\
             max_acc s2 = tmp_acc) /\
          (~ best < tmp_acc ->
             saves evs = [] /\ fs s2 = fs s1 /\ max_acc s2 = max_acc s1)
    | Raise e s2 =>
        files (fs s2) = files (fs s1) /\
        (e = ZeroDivisionError ->
           saves evs = [] /\ fs s2 = fs s1 /\ max_acc s2 = max_acc s1) /\
        (e <> ZeroDivisionError ->
           ~ can_write g (fs s1) /\
           exists tmp_acc,
             test_accs evs = [tmp_acc] /\ best < tmp_acc /\ max_acc s2 = tmp_acc)
    end.
Proof.
  cbv zeta.
  set (g := globals a).
  set (s0 := state_of (resume_from_checkpoint g (initial_state g w f))).
  set (s1 := state_of ((epoch_loop g epochs;; adjust_learning_rate epoch) s0)).
  assert (H0 : best_so_far s0).
  { apply preserves_state_of; [apply best_so_far_resume|reflexivity]. }
  assert (H1 : best_so_far s1).
  { apply preserves_state_of; [|exact H0].
    apply preserves_bind; [apply best_so_far_epoch_loop|intros _].
    apply best_so_far_adjust. }
  split; [reflexivity|].
  split.
  { subst s0. unfold resume_from_checkpoint, initial_state.
    destruct (Args.resume (args g)) as [r|]; [|reflexivity].
    unfold torch_load, isdir. run_monad.
    destruct (bool_decide _); cbn; [|reflexivity].
    now destruct (files f !! _). }
  split; [exact H1|].
  unfold best_so_far in H1. rewrite <- H1.
  destruct (train_spec g epoch s1) as (evs & Hlog & _ & _ & _ & Hpost).
  exists evs. split; [exact Hlog|].
  destruct (train g epoch s1) as [[] s2|e s2].
  - destruct Hpost as (acc & tmp_acc & Hacc & _ & _ & Ht & Hif).
    exists acc, tmp_acc. split; [exact Hacc|]. split; [exact Ht|].
    destruct (Qltb (max_acc s1) tmp_acc) eqn:Hlt.
    + apply Qltb_lt in Hlt. destruct Hif as (Hm & Hs & Hf & Hn).
      split; [|intros Hn'; now destruct Hn'].
      intros _. split; [exact Hs|]. split; [exact Hf|]. split; [|exact Hm].
      intros Hname. now apply Hn.
    + split; [|intros _; exact (proj2 Hif) || tauto].
      intros Hn. apply Qltb_lt in Hn. congruence.
  - destruct Hpost as (Hf & _ & [(-> & Hfs & Hmax & Hs & _)|(Hz & Hcw & tmp_acc & Ht & Hlt & Hm)]).
    + split; [exact Hf|]. split; [now intros _|]. intros Hne. now destruct Hne.
    + split; [exact Hf|]. split; [intros ->; now destruct Hz|].
      intros _. split; [exact Hcw|]. now exists tmp_acc.
Qed.

(** C6 as stated fails where the working directory holds a regular file
    called 'checkpoint': in the first epoch of the small instance the
    PGD-20 accuracy is above the running maximum 0, yet no checkpoint is
    written: [os.mkdir] raises FileExistsError, after [max_acc] has left
    0. *)
Lemma best_checkpoint_blocked :
  let g := globals Toy.args1 in
  let s := @initial_state Toy.torch g 0%Z Toy.fs_file in
  let o := train g 0 s in
  max_acc s = 0 /\ test_accs (log s) = [] /\
  error_of o = Some (FileExistsError "checkpoint") /\
  (exists tmp_acc, test_accs (log (state_of o)) = [tmp_acc] /\ 0 < tmp_acc) /\
  files (fs (state_of o)) !! best_path g = None /\
  saves (log (state_of o)) = [] /\
  0 < max_acc (state_of o).
Proof.
  cbv zeta. split; [reflexivity|]. split; [reflexivity|].
  split; [vm_compute; reflexivity|].
  split.
  { eexists. split; [vm_compute; reflexivity|reflexivity]. }
  split; [vm_compute; reflexivity|].
  split; vm_compute; reflexivity.
Qed.

(** * The schedule and resuming *)

Section Schedule.
Context `{Torch}.

Lemma adjust_learning_rate_run epoch s :
  adjust_learning_rate epoch s =
  Ok tt (mkState (set_lr (scheduled_lr epoch) (world s)) (fs s) (delta s)
           (max_acc s) (start_epoch s) (log s ++ [EvSetLr (scheduled_lr epoch)])).
Proof. reflexivity. Qed.

End Schedule.

Section Resume.
Context `{Torch}.

(** Lines 83-90, case by case. *)
Lemma resume_run g s :
  resume_from_checkpoint g s =
  match Args.resume (args g) with
  | None => Ok tt s
  | Some r =>
      if bool_decide ("checkpoint" ∈ dirs (fs s)) then
        match files (fs s) !! ckpt_path r with
        | Some ck =>
            Ok tt (mkState
                     (set_rng_state (ck_rng_state ck)
                        (load_state_dict (ck_net ck) (world s)))
                     (fs s) (delta s) (max_acc s) (ck_epoch ck + 1)
                     (log s ++ [EvLoad (ckpt_path r); EvLoadStateDict]))
        | None =>
            Raise (FileNotFoundError (ckpt_path r))
              (add_event (EvLoad (ckpt_path r)) s)
        end
      else Raise (AssertionError "Error: no checkpoint directory found!") s
  end.
Proof.
  unfold resume_from_checkpoint, torch_load, isdir, ckpt_path.
  destruct (Args.resume (args g)) as [r|]; [|reflexivity].
  run_monad. destruct (bool_decide _); cbn; [|reflexivity].
  destruct (files (fs s) !! _); cbn; [|reflexivity].
  now rewrite <- app_assoc.
Qed.

Lemma training_run g s :
  training g s =
  match resume_from_checkpoint g s with
  | Ok _ s1 => epoch_loop g (range (start_epoch s1) 27) s1
  | Raise e s1 => Raise e s1
  end.
Proof.
  unfold training. unfold mbind at 1, M_bind at 1.
  now destruct (resume_from_checkpoint g s).
Qed.

Lemma main_run a w f :
  main a w f =
  match training (globals a) (initial_state (globals a) w f) with
  | Ok _ s1 => final_evaluation (globals a) s1
  | Raise e s1 => Raise e s1
  end.
Proof. reflexivity. Qed.

End Resume.

(** * The final evaluation *)

Section Final.
Context `{Torch}.

Lemma torch_load_run p s :
  torch_load p s =
  match files (fs s) !! p with
  | Some ck => Ok ck (add_event (EvLoad p) s)
  | None => Raise (FileNotFoundError p) (add_event (EvLoad p) s)
  end.
Proof. unfold torch_load. run_monad. now destruct (files (fs s) !! p). Qed.

(** Lines 243-249 by the file at the best-checkpoint path. *)
Lemma final_evaluation_run g s :
  final_evaluation g s =
  match files (fs s) !! best_path g with
  | None =>
      Raise (FileNotFoundError (best_path g)) (add_event (EvLoad (best_path g)) s)
  | Some ck =>
      (test g 111;; test_50 g 111;; test_fgsm g 111;; mret tt)
        (mkState (net_eval (load_state_dict (ck_net ck) (world s))) (fs s) (delta s)
           (max_acc s) (start_epoch s)
           (log s ++ [EvLoad (best_path g); EvLoadStateDict; EvNetEval]))
  end.
Proof.
  unfold final_evaluation. fold (best_path g).
  rewrite bind_run, torch_load_run.
  destruct (files (fs s) !! best_path g) as [ck|]; [|reflexivity].
  rewrite bind_run. unfold emit at 1, modify at 1.
  rewrite bind_run. unfold call at 1, modify at 1.
  rewrite bind_run. unfold emit at 1, modify at 1.
  rewrite bind_run. unfold call at 1, modify at 1.
  unfold add_event, set_world. cbn [world fs delta max_acc start_epoch log].
  now rewrite <- !app_assoc.
Qed.

(** Lines 247-249 with a test set that is not empty: the three tests
    one after the other, each from the framework state the one before
    left. *)
Lemma final_tests_exact g s :
  test_total <> 0%Z ->
  let r1 := attacked (adversary g) (world s) in
  let r2 := attacked (adversary_50 g) r1.2 in
  let r3 := attacked (adversary_FGSM g) r2.2 in
  (test g 111;; test_50 g 111;; test_fgsm g 111;; mret tt) s =
  Ok tt
    (mkState r3.2 (fs s) (delta s) (max_acc s) (start_epoch s)
       (log s ++
        (EvNetEval :: attack_events (adversary g) testloader (net_eval (world s)))
        ++ [EvTestAcc 111 (accuracy r1)] ++
        (EvNetEval :: attack_events (adversary_50 g) testloader (net_eval r1.2))
        ++ [EvTestAcc 111 (accuracy r2)] ++
        (EvNetEval :: attack_events (adversary_FGSM g) testloader (net_eval r2.2))
        ++ [EvTestAcc 111 (accuracy r3)])).
Proof.
  intros Htest. cbv zeta. unfold test, test_50, test_fgsm.
  rewrite bind_run, test_with_exact, decide_False by exact Htest.
  rewrite bind_run, test_with_exact, decide_False by exact Htest.
  rewrite bind_run, test_with_exact, decide_False by exact Htest.
  cbn [world fs delta max_acc start_epoch log]. unfold mret, M_ret.
  f_equal. f_equal. rewrite <- !app_assoc. cbn. now rewrite <- !app_assoc.
Qed.

End Final.

(** ** The checkpoint the final evaluation loads *)

Section BestFile.
Context `{Torch}.

Lemma keeps_ok_bind {A B} I (c : M A) (k : A -> M B) :
  keeps_ok I c -> (forall a, keeps_ok I (k a)) -> keeps_ok I (c ≫= k).
Proof. intros Hc Hk. eapply hoare_bind; [exact Hc|exact Hk]. Qed.

Lemma keeps_ok_foldM {A B} I (body : B -> A -> M B) (l : list A) acc :
  (forall acc x, keeps_ok I (body acc x)) -> keeps_ok I (foldM body l acc).
Proof.
  intros Hbody.
  apply (hoare_foldM (fun _ => I) (fun _ _ => True) body l); intros; apply Hbody.
Qed.

Lemma best_file_quiet g f s s' evs :
  log s' = log s ++ evs -> saves evs = [] ->
  fs s' = fs s -> max_acc s' = max_acc s ->
  best_file_inv g f s -> best_file_inv g f s'.
Proof.
  intros Hlog Hs Hfs Hmax (H0 & Hn & Hp). unfold best_file_inv.
  rewrite Hlog, Hfs, Hmax, saves_app, Hs, app_nil_r.
  split; [exact H0|]. split; [exact Hn|].
  intros Hpos. destruct (Hp Hpos) as (Hsv & ck & Hck & Hin).
  split; [exact Hsv|]. exists ck. split; [exact Hck|].
  apply elem_of_app. now left.
Qed.

Lemma best_file_train g f epoch : keeps_ok (best_file_inv g f) (train g epoch).
Proof.
  intros s Hs. destruct (train_spec g epoch s) as (evs & Hlog & _ & _ & _ & Hpost).
  destruct (train g epoch s) as [[] s'|e s']; [|exact Logic.I].
  cbn [state_of] in Hlog.
  destruct Hpost as (acc & tmp_acc & _ & Hin & _ & _ & Hif).
  destruct (Qltb (max_acc s) tmp_acc) eqn:Hlt.
  - destruct Hif as (Hm & Hsv & Hf & _). apply Qltb_lt in Hlt.
    destruct Hs as (H0 & _). unfold best_file_inv.
    assert (Hpos : 0 < max_acc s') by (rewrite Hm; eapply Qle_lt_trans; eassumption).
    split; [now apply Qlt_le_weak|]. split; [intros Hn; now destruct Hn|].
    intros _. rewrite Hlog, saves_app, Hsv. split.
    { intros Heq. apply app_eq_nil in Heq. destruct Heq as [_ Heq]. discriminate Heq. }
    eexists. split; [exact Hf|].
    cbn [ck_epoch]. rewrite Hm. apply elem_of_app. now right.
  - destruct Hif as (Hm & Hsv & Hfs).
    now apply (best_file_quiet g f s s' evs).
Qed.

Lemma best_file_training g f : keeps_ok (best_file_inv g f) (training g).
Proof.
  unfold training.
  apply keeps_ok_bind; [|intros _].
  { intros s Hs. rewrite resume_run.
    destruct (Args.resume (args g)) as [r|]; [|exact Hs].
    destruct (bool_decide _); [|exact Logic.I].
    destruct (files (fs s) !! ckpt_path r) as [ck|]; [|exact Logic.I].
    now apply (best_file_quiet g f s _ [EvLoad (ckpt_path r); EvLoadStateDict]). }
  apply keeps_ok_bind; [intros s Hs; exact Hs|intros e].
  apply keeps_ok_foldM. intros _ epoch.
  apply keeps_ok_bind; [|intros _; apply best_file_train].
  intros s Hs. rewrite adjust_learning_rate_run.
  now apply (best_file_quiet g f s _ [EvSetLr (scheduled_lr epoch)]).
Qed.

Lemma best_file_initial g w f : best_file_inv g f (initial_state g w f).
Proof.
  unfold best_file_inv. cbn. split; [lra|]. split; [now split|]. intros Hlt. lra.
Qed.


End BestFile.

(** C7: when the epoch loop has completed, a checkpoint was saved (the
    running maximum is positive) or the file './checkpoint/best' +
    datasets exists anyway, and the test set is not empty, the script ends
    normally: it loads that file, puts its network state into the
    network, and evaluates the network under exactly three attacks, in
    this order: L-infinity PGD with 20 iterations, L-infinity PGD with 50
    iterations, and FGSM, each with eps = 8/255, clipping to [0, 1], and
    PGD step size 2/255.  Each evaluation calls [net.eval()], attacks
    every test batch and classifies what the attack returns; the
    framework state, the accuracies printed and the events at the end are
    those of these calls and of no other. *)
Theorem final_evaluation_three_attacks `{Torch}
    (a : Args.t) (w : World) (f : FS) (s : State) :
  let g := globals a in
  let pgd20 := LinfPGDAttack ReductionSum (8 # 255) 20 (2 # 255) true 0 1 false in
  let pgd50 := LinfPGDAttack ReductionSum (8 # 255) 50 (2 # 255) true 0 1 false in
  let fgsm := FGSM ReductionSum (8 # 255) 0 1 false in
  training g (initial_state g w f) = Ok tt s ->
  0 < max_acc s \/ is_Some (files (fs s) !! best_path g) ->
  test_total <> 0%Z ->
  exists ck,
    files (fs s) !! best_path g = Some ck /\
    let w0 := net_eval (load_state_dict (ck_net ck) (world s)) in
    let r1 := foldl (attacked_batch pgd20) (0%Z, 0%Z, net_eval w0) testloader in
    let r2 := foldl (attacked_batch pgd50) (0%Z, 0%Z, net_eval r1.2) testloader in
    let r3 := foldl (attacked_batch fgsm) (0%Z, 0%Z, net_eval r2.2) testloader in
    let acc1 := 100 * inject_Z r1.1.1 / inject_Z r1.1.2 in
    let acc2 := 100 * inject_Z r2.1.1 / inject_Z r2.1.2 in
    let acc3 := 100 * inject_Z r3.1.1 / inject_Z r3.1.2 in
    main a w f =
      Ok tt
        (mkState r3.2 (fs s) (delta s) (max_acc s) (start_epoch s)
           (log s ++ [EvLoad (best_path g); EvLoadStateDict; EvNetEval] ++
            (EvNetEval :: attack_events pgd20 testloader (net_eval w0))
            ++ [EvTestAcc 111 acc1] ++
            (EvNetEval :: attack_events pgd50 testloader (net_eval r1.2))
            ++ [EvTestAcc 111 acc2] ++
            (EvNetEval :: attack_events fgsm testloader (net_eval r2.2))
            ++ [EvTestAcc 111 acc3])) /\
    (forall atk r b,
       let p := perturb atk (inputs b) (targets b) r.2 in
       let o := net_forward p.1 p.2 in
       attacked_batch atk r b =
         ((r.1.1 + n_correct o.1 (targets b))%Z,
          (r.1.2 + Z.of_nat (length (targets b)))%Z, o.2)) /\
    (forall atk l w',
       perturbs (attack_events atk l w') = replicate (length l) atk) /\
    adversary g = pgd20 /\ adversary_50 g = pgd50 /\ adversary_FGSM g = fgsm.
Proof.
  cbv zeta. set (g := globals a). intros Htrain Hsaved Htest.
  assert (Hfile : is_Some (files (fs s) !! best_path g)).
  { destruct Hsaved as [Hpos|Hfile]; [|exact Hfile].
    pose proof (best_file_training g f (initial_state g w f)
                  (best_file_initial g w f)) as Hbest.
    rewrite Htrain in Hbest. destruct Hbest as (_ & _ & Hp).
    destruct (Hp Hpos) as (_ & ck & Hck & _). now exists ck. }
  destruct Hfile as [ck Hfile]. exists ck. split; [exact Hfile|].
  split; [|now repeat split; try apply perturbs_attack_events].
  rewrite main_run. fold g. rewrite Htrain, final_evaluation_run, Hfile.
  rewrite (final_tests_exact g _ Htest).
  cbn [world fs delta max_acc start_epoch log].
  f_equal. f_equal. now rewrite <- !app_assoc.
Qed.

Lemma final_evaluation_example :
  let g := globals Toy.args1 in
  let s := state_of (training g (Toy.start Toy.args1)) in
  exists (ck : @Checkpoint Toy.torch),
    training g (Toy.start Toy.args1) = Ok tt s /\
    0 < max_acc s /\
    @test_total Toy.torch <> 0%Z /\
    files (fs s) !! best_path g = Some ck /\
    is_ok (@main Toy.torch Toy.args1 0%Z Toy.fs0) = true.
Proof.
  cbv zeta.
  assert (Hok : is_ok (training (globals Toy.args1) (Toy.start Toy.args1)) = true)
    by (vm_compute; reflexivity).
  pose proof (is_ok_state_of _ Hok) as Htrain.
  assert (Hpos : 0 < max_acc (state_of (training (globals Toy.args1)
                                          (Toy.start Toy.args1))))
    by (vm_compute; reflexivity).
  assert (Htest : @test_total Toy.torch <> 0%Z) by (vm_compute; discriminate).
  destruct (@final_evaluation_three_attacks Toy.torch Toy.args1 0%Z Toy.fs0 _
              Htrain (or_introl Hpos) Htest)
    as (ck & Hfile & Hrun & _).
  exists ck.
  split; [exact Htrain|]. split; [exact Hpos|]. split; [exact Htest|].
  split; [exact Hfile|]. now rewrite Hrun.
Defined.


(** * The role of [--epsilon] *)

(** C8: the three attack objects are built with eps = 8/255 (and PGD
    step size 2/255) whatever --epsilon is: changing --epsilon changes
    none of them, nor the functions [test], [test_50], [test_fgsm] that
    use them, nor resuming, the checkpoint step or the final evaluation;
    in an inner iteration it changes the new buffer only, not the
    framework state, the statistics, the files or [max_acc]. *)
Theorem attacks_ignore_epsilon `{Torch} (a : Args.t) (e : Q) :
  let g := globals a in
  let g' := globals (with_epsilon e a) in
  (adversary g' = adversary g /\ adversary_50 g' = adversary_50 g /\
   adversary_FGSM g' = adversary_FGSM g) /\
  (adversary g = LinfPGDAttack ReductionSum (8 # 255) 20 (2 # 255) true 0 1 false /\
   adversary_50 g = LinfPGDAttack ReductionSum (8 # 255) 50 (2 # 255) true 0 1 false /\
   adversary_FGSM g = FGSM ReductionSum (8 # 255) 0 1 false) /\
  (test g' = test g /\ test_50 g' = test_50 g /\ test_fgsm g' = test_fgsm g) /\
  (resume_from_checkpoint g' = resume_from_checkpoint g /\
   save_if_best g' = save_if_best g /\
   final_evaluation g' = final_evaluation g) /\
  epsilon g' = e /\
  forall b st s,
    exists st' s1 s1',
      inner_step g b st s = Ok st' s1 /\
      inner_step g' b st s = Ok st' s1' /\
      world s1' = world s1 /\ fs s1' = fs s1 /\ max_acc s1' = max_acc s1 /\
      delta s1 = next_delta (Args.epsilon a) (delta s) (step_grad b s) /\
      delta s1' = next_delta e (delta s) (step_grad b s).
Proof.
  cbv zeta. repeat split.
  intros b st s. rewrite !inner_step_run. unfold step_state.
  eexists _, _, _. repeat split.
Qed.

(** C9: in training the network is fed inputs + delta as it is, with no
    clamping: the forward pass, and through it the loss, the backward
    pass, the optimiser step and the statistics of the iteration, are
    those of the element-by-element sum of the input and the buffer.
    With inputs in [0, 1] and the buffer in [-epsilon, epsilon] its
    elements lie in [-epsilon, 1 + epsilon], and both ends are reached
    (in the second iteration of the small instance a black pixel is fed
    as -8/255 and a white one as 1 + 8/255), whereas the three
    evaluation attacks clip to [0, 1]. *)
Theorem training_input_not_clamped `{Torch}
    (a : Args.t) (b : Batch) (st : Stats) (s : State) :
  let g := globals a in
  let eps := Args.epsilon a in
  let adv := Tensor.add (inputs b) (delta s) in
  let fw := net_forward adv (zero_grad (world s)) in
  let loss := cross_entropy fw.1 (targets b) in
  (exists st' s' evs,
     inner_step g b st s = Ok st' s' /\
     log s' = log s ++ [EvZeroGrad; EvAdv (inputs b) (delta s); EvForward adv] ++ evs /\
     world s' = optimizer_step (backward loss adv fw.2).2 /\
     delta s' = next_delta eps (delta s) (backward loss adv fw.2).1 /\
     train_loss st' = train_loss st + loss_item loss /\
     correct st' = (correct st + n_correct fw.1 (targets b))%Z) /\
  step_outputs b s = fw.1 /\
  Tensor.data adv = zip_with Qplus (Tensor.data (inputs b)) (Tensor.data (delta s)) /\
  (within 0 1 (inputs b) -> bounded eps (delta s) -> within (- eps) (1 + eps) adv) /\
  (attack_clip (adversary g) = (0, 1) /\ attack_clip (adversary_50 g) = (0, 1) /\
   attack_clip (adversary_FGSM g) = (0, 1)) /\
  (let g2 := globals (Toy.args_of 2 None) in
   let s2 := state_of (train_batch g2 Toy.batch (mkStats 0 0 0)
                         (Toy.start (Toy.args_of 2 None))) in
   exists d x v1 v2,
     log s2 !! 9%nat = Some (EvAdv (inputs Toy.batch) d) /\
     log s2 !! 10%nat = Some (EvForward x) /\
     x = Tensor.add (inputs Toy.batch) d /\
     within 0 1 (inputs Toy.batch) /\ bounded (8 # 255) d /\
     Tensor.data x !! 0%nat = Some v1 /\ v1 == - (8 # 255) /\
     Tensor.data x !! 1536%nat = Some v2 /\ v2 == 1 + (8 # 255)).
Proof.
  cbv zeta. split.
  { rewrite inner_step_run. unfold step_state.
    eexists _, _, _. split; [reflexivity|]. now repeat split. }
  split; [reflexivity|]. split; [reflexivity|].
  split.
  { unfold within, bounded, Tensor.all, Tensor.add, Tensor.map2. cbn.
    generalize (Tensor.data (delta s)) as ds.
    induction (Tensor.data (inputs b)) as [|x xs IH]; intros [|d ds] Hx Hd; cbn;
      try constructor.
    - inversion Hx; inversion Hd; subst. lra.
    - inversion Hx; inversion Hd; subst. now apply IH. }
  split; [now repeat split|].
  set (a2 := Toy.args_of 2 None).
  set (d := next_delta (8 # 255) (delta (Toy.start a2)) (step_grad Toy.batch (Toy.start a2))).
  exists d, (Tensor.add (inputs Toy.batch) d). eexists. eexists.
  split; [vm_compute; reflexivity|].
  split; [vm_compute; reflexivity|].
  split; [reflexivity|].
  split.
  { unfold within, Tensor.all.
    change (Tensor.data (inputs Toy.batch)) with (replicate 1536 0 ++ replicate 1536 1).
    apply Forall_app. split; apply Forall_replicate; lra. }
  split; [apply next_delta_bounded; lra|].
  split; [vm_compute; reflexivity|].
  split; [vm_compute; reflexivity|].
  split; [vm_compute; reflexivity|].
  vm_compute; reflexivity.
Qed.

(** * Exceptions *)

Section Exceptions.
Context `{Torch}.

Lemma no_assert_bind {A B} (c : M A) (f : A -> M B) :
  no_assert c -> (forall a, no_assert (f a)) -> no_assert (c ≫= f).
Proof. intros Hc Hf. eapply hoare_bind; [exact Hc|]. intros a s _. now apply Hf. Qed.

Lemma no_assert_foldM {A B} (body : B -> A -> M B) (l : list A) acc :
  (forall acc x, no_assert (body acc x)) -> no_assert (foldM body l acc).
Proof.
  intros Hbody.
  apply (hoare_foldM (fun _ _ => True) (fun e _ => not_assertion e) body l).
  intros. apply Hbody.
Qed.

Lemma no_assert_ok {A} (c : M A) :
  (forall s, exists a s', c s = Ok a s') -> no_assert c.
Proof. intros Hc s _. destruct (Hc s) as (a & s' & ->). exact Logic.I. Qed.

Lemma no_assert_raise {A} e : not_assertion e -> no_assert (raise (A := A) e).
Proof. intros He s _. exact He. Qed.

Lemma no_assert_percent c t : no_assert (percent c t).
Proof.
  unfold percent. case_decide.
  - now apply no_assert_raise.
  - apply no_assert_ok. eauto.
Qed.

Lemma no_assert_torch_load p : no_assert (torch_load p).
Proof.
  unfold torch_load. apply no_assert_bind; [apply no_assert_ok; eauto|intros _].
  apply no_assert_bind; [apply no_assert_ok; eauto|intros [ck|]].
  - apply no_assert_ok. eauto.
  - now apply no_assert_raise.
Qed.

Lemma no_assert_test_with atk epoch : no_assert (test_with atk epoch).
Proof.
  intros s _.
  destruct (test_with_run atk epoch s) as (evs & w' & c & _ & _ & _ & ->).
  now case_decide.
Qed.

Lemma no_assert_train g epoch : no_assert (train g epoch).
Proof.
  intros s _. destruct (train_spec g epoch s) as (evs & _ & _ & _ & _ & Hpost).
  destruct (train g epoch s) as [|e s']; [exact Logic.I|].
  now destruct Hpost as (_ & Hna & _).
Qed.

Lemma no_assert_epoch_loop g epochs : no_assert (epoch_loop g epochs).
Proof.
  apply no_assert_foldM. intros _ epoch.
  apply no_assert_bind; [|intros _; apply no_assert_train].
  apply no_assert_ok. intros s. unfold adjust_learning_rate. cbv zeta.
  run_monad. eauto.
Qed.

Lemma no_assert_final_evaluation g : no_assert (final_evaluation g).
Proof.
  unfold final_evaluation, test, test_50, test_fgsm.
  repeat first
    [ apply no_assert_torch_load | apply no_assert_test_with
    | apply no_assert_bind; [|intros ?]
    | apply no_assert_ok; intros ?; run_monad; solve [eauto] ].
Qed.

(** The assertion of line 86 is the only one: past it, no
    [AssertionError]. *)
Lemma script_no_assert g s :
  Args.resume (args g) = None \/ "checkpoint" ∈ dirs (fs s) ->
  match script g s with
  | Raise e _ => not_assertion e
  | Ok _ _ => True
  end.
Proof.
  intros Hcond.
  assert (Hs : hoare (fun s' => s' = s) (script g) (fun _ _ => True)
                 (fun e _ => not_assertion e)); [|now apply (Hs s)].
  unfold script.
  eapply hoare_bind with (Q' := fun _ _ => True);
    [|intros _; apply no_assert_final_evaluation].
  unfold training.
  eapply hoare_bind with (Q' := fun _ _ => True).
  - unfold resume_from_checkpoint.
    destruct (Args.resume (args g)) as [r|]; [|now apply hoare_ret].
    destruct Hcond as [|Hdir]; [discriminate|].
    eapply hoare_bind with (Q' := fun d _ => d = true).
    + intros s' ->. cbn. now apply bool_decide_eq_true.
    + intros d.
      eapply hoare_bind with (Q' := fun _ _ => True).
      * intros s' ->. exact Logic.I.
      * intros _.
        repeat first
          [ apply no_assert_torch_load
          | apply no_assert_bind; [|intros ?]
          | apply no_assert_ok; intros ?; run_monad; solve [eauto] ].
  - intros _.
    repeat first
      [ apply no_assert_epoch_loop
      | apply no_assert_bind; [|intros ?]
      | apply no_assert_ok; intros ?; run_monad; solve [eauto] ].
Qed.

End Exceptions.

(** C10 (amended): the script makes exactly one error check of its own:
    with --resume, when the directory 'checkpoint' does not exist, it
    stops at once with the AssertionError of line 86, before anything
    else happens; in every other case no AssertionError occurs: what
    else ends a run is an exception of Python, the libraries or the
    operating system. *)
Theorem only_assertion_is_resume_check `{Torch} (a : Args.t) (w : World) (f : FS) :
  let msg := "Error: no checkpoint directory found!" in
  let missing := (exists r, Args.resume a = Some r) /\ "checkpoint" ∉ dirs f in
  (missing ->
     main a w f = Raise (AssertionError msg) (initial_state (globals a) w f)) /\
  (forall m s, main a w f = Raise (AssertionError m) s ->
     missing /\ m = msg /\ s = initial_state (globals a) w f).
Proof.
  cbv zeta.
  assert (Hmiss : (exists r, Args.resume a = Some r) /\ "checkpoint" ∉ dirs f ->
    main a w f = Raise (AssertionError "Error: no checkpoint directory found!")
                   (initial_state (globals a) w f)).
  { intros [[r Hr] Hdir]. unfold main, script, training, resume_from_checkpoint. cbn.
    rewrite Hr. unfold isdir. run_monad.
    rewrite bool_decide_eq_false_2 by exact Hdir. reflexivity. }
  assert (Hinv : forall m s, main a w f = Raise (AssertionError m) s ->
    (exists r, Args.resume a = Some r) /\ "checkpoint" ∉ dirs f).
  { intros m s Hrun.
    destruct (Args.resume a) as [r|] eqn:Hr.
    - split; [eauto|]. intros Hdir.
      pose proof (script_no_assert (globals a) (initial_state (globals a) w f)
                    (or_intror Hdir)) as Hna.
      unfold main in Hrun. rewrite Hrun in Hna. exact Hna.
    - pose proof (script_no_assert (globals a) (initial_state (globals a) w f)
                    (or_introl Hr)) as Hna.
      unfold main in Hrun. rewrite Hrun in Hna. destruct Hna. }
  split; [exact Hmiss|].
  intros m s Hrun. pose proof (Hinv m s Hrun) as Hm.
  split; [exact Hm|]. rewrite (Hmiss Hm) in Hrun. now inversion Hrun.
Qed.

(** C10 as stated fails: started with --resume 5 in a directory without
    'checkpoint', the script stops with its own AssertionError before it
    calls anything. *)
Lemma resume_without_directory_asserts :
  @main Toy.torch (Toy.args_of 1 (Some 5%Z)) 0%Z Toy.fs0 =
  Raise (AssertionError "Error: no checkpoint directory found!")
    (Toy.start (Toy.args_of 1 (Some 5%Z))) /\
  log (Toy.start (Toy.args_of 1 (Some 5%Z))) = [].
Proof. split; vm_compute; reflexivity. Qed.

(** * Further properties of the script *)

(** X1: [adjust_learning_rate] never fails and changes nothing but the
    optimiser's learning rate, which it sets to 0.1 before epoch 12, to
    0.01 for epochs 12 to 21 and to 0.001 from epoch 22 on; so the rate
    never goes up from one epoch to a later one. *)
Theorem learning_rate_schedule `{Torch} (epoch : Z) (s : State) :
  adjust_learning_rate epoch s =
    Ok tt (mkState (set_lr (scheduled_lr epoch) (world s)) (fs s) (delta s)
             (max_acc s) (start_epoch s) (log s ++ [EvSetLr (scheduled_lr epoch)])) /\
  ((epoch < 12)%Z -> scheduled_lr epoch = 1 # 10) /\
  ((12 <= epoch < 22)%Z -> scheduled_lr epoch = 1 # 100) /\
  ((22 <= epoch)%Z -> scheduled_lr epoch = 1 # 1000) /\
  (forall later, (epoch <= later)%Z -> scheduled_lr later <= scheduled_lr epoch).
Proof.
  split; [apply adjust_learning_rate_run|].
  unfold scheduled_lr. repeat split.
  - intros Hlt. now rewrite decide_True.
  - intros Hin. rewrite decide_False by lia. now rewrite decide_True.
  - intros Hge. now rewrite !decide_False by lia.
  - intros later Hle.
    repeat case_decide; try lia; unfold Qle; cbn; lia.
Qed.

(** X2: with --resume r, when the directory 'checkpoint' exists but the
    file './checkpoint/ckpt.r' does not, the script stops with the
    FileNotFoundError of [torch.load] for that path, before it trains or
    evaluates anything. *)
Theorem resume_without_file `{Torch} (a : Args.t) (w : World) (f : FS) (r : Z) :
  Args.resume a = Some r ->
  "checkpoint" ∈ dirs f ->
  files f !! ckpt_path r = None ->
  main a w f =
    Raise (FileNotFoundError (ckpt_path r))
      (add_event (EvLoad (ckpt_path r)) (initial_state (globals a) w f)).
Proof.
  intros Hr Hdir Hfile. rewrite main_run, training_run, resume_run. cbn.
  rewrite Hr, bool_decide_eq_true_2 by exact Hdir. now rewrite Hfile.
Qed.

Lemma resume_without_file_example :
  Args.resume (Toy.args_of 1 (Some 5%Z)) = Some 5%Z /\
  "checkpoint" ∈ dirs Toy.fs_dir /\
  files Toy.fs_dir !! ckpt_path 5 = None /\
  @main Toy.torch (Toy.args_of 1 (Some 5%Z)) 0%Z Toy.fs_dir =
    Raise (FileNotFoundError "./checkpoint/ckpt.5")
      (add_event (EvLoad "./checkpoint/ckpt.5")
         (@initial_state Toy.torch (globals (Toy.args_of 1 (Some 5%Z))) 0%Z Toy.fs_dir)).
Proof.
  assert (Hdir : "checkpoint" ∈ dirs Toy.fs_dir) by (now apply elem_of_singleton).
  assert (Hfile : files Toy.fs_dir !! ckpt_path 5 = None) by reflexivity.
  split; [reflexivity|]. split; [exact Hdir|]. split; [exact Hfile|].
  exact (@resume_without_file Toy.torch (Toy.args_of 1 (Some 5%Z)) 0%Z Toy.fs_dir 5
           eq_refl Hdir Hfile).
Defined.

(** X3: with --resume r, when the directory and the file
    './checkpoint/ckpt.r' exist, the script loads the network state and
    the RNG state of that file and trains the epochs from the file's
    epoch + 1 up to 26 (none when the file's epoch is 26 or more); the
    perturbation buffer and the best accuracy are not taken from the
    file: training restarts from the zero buffer and from max_acc = 0. *)
Theorem resume_restarts_after_checkpoint `{Torch}
    (a : Args.t) (w : World) (f : FS) (r : Z) (ck : Checkpoint) :
  let g := globals a in
  let s1 :=
    mkState (set_rng_state (ck_rng_state ck) (load_state_dict (ck_net ck) w)) f
      (Tensor.zeros [Args.batch_size a; 3; 32; 32]%Z) 0 (ck_epoch ck + 1)
      [EvLoad (ckpt_path r); EvLoadStateDict] in
  Args.resume a = Some r ->
  "checkpoint" ∈ dirs f ->
  files f !! ckpt_path r = Some ck ->
  resume_from_checkpoint g (initial_state g w f) = Ok tt s1 /\
  training g (initial_state g w f) = epoch_loop g (range (ck_epoch ck + 1) 27) s1 /\
  ((26 <= ck_epoch ck)%Z ->
     training g (initial_state g w f) = Ok tt s1 /\
     main a w f = final_evaluation g s1).
Proof.
  cbv zeta. intros Hr Hdir Hfile.
  assert (Hres : resume_from_checkpoint (globals a) (initial_state (globals a) w f)
    = Ok tt (mkState (set_rng_state (ck_rng_state ck) (load_state_dict (ck_net ck) w))
               f (Tensor.zeros [Args.batch_size a; 3; 32; 32]%Z) 0 (ck_epoch ck + 1)
               [EvLoad (ckpt_path r); EvLoadStateDict])).
  { rewrite resume_run. cbn.
    rewrite Hr, bool_decide_eq_true_2 by exact Hdir. now rewrite Hfile. }
  split; [exact Hres|].
  assert (Htr : training (globals a) (initial_state (globals a) w f)
    = epoch_loop (globals a) (range (ck_epoch ck + 1) 27)
        (mkState (set_rng_state (ck_rng_state ck) (load_state_dict (ck_net ck) w))
           f (Tensor.zeros [Args.batch_size a; 3; 32; 32]%Z) 0 (ck_epoch ck + 1)
           [EvLoad (ckpt_path r); EvLoadStateDict])).
  { now rewrite training_run, Hres. }
  split; [exact Htr|].
  intros Hlast.
  assert (Hnone : range (ck_epoch ck + 1) 27 = []).
  { unfold range. apply seqZ_nil. lia. }
  rewrite Hnone in Htr. split; [exact Htr|].
  now rewrite main_run, Htr.
Qed.

Lemma resume_restarts_example :
  let a := Toy.args_of 1 (Some 5%Z) in
  let ck := @mkCheckpoint Toy.torch 0%Z 0 25 0%Z in
  let s1 :=
    @mkState Toy.torch 0%Z Toy.fs_ckpt
      (Tensor.zeros [1; 3; 32; 32]%Z) 0 26
      [EvLoad "./checkpoint/ckpt.5"; EvLoadStateDict] in
  Args.resume a = Some 5%Z /\
  "checkpoint" ∈ dirs Toy.fs_ckpt /\
  files Toy.fs_ckpt !! ckpt_path 5 = Some ck /\
  resume_from_checkpoint (globals a) (@initial_state Toy.torch (globals a) 0%Z Toy.fs_ckpt)
    = Ok tt s1 /\
  training (globals a) (@initial_state Toy.torch (globals a) 0%Z Toy.fs_ckpt)
    = epoch_loop (globals a) [26%Z] s1.
Proof.
  cbv zeta.
  assert (Hdir : "checkpoint" ∈ dirs Toy.fs_ckpt) by (now apply elem_of_singleton).
  assert (Hfile : files Toy.fs_ckpt !! ckpt_path 5
                  = Some (@mkCheckpoint Toy.torch 0%Z 0 25 0%Z))
    by (vm_compute; reflexivity).
  split; [reflexivity|]. split; [exact Hdir|]. split; [exact Hfile|].
  destruct (@resume_restarts_after_checkpoint Toy.torch (Toy.args_of 1 (Some 5%Z))
              0%Z Toy.fs_ckpt 5 _ eq_refl Hdir Hfile) as (Hres & Htr & _).
  split; [exact Hres|exact Htr].
Defined.

(** ** When an epoch ends normally *)

Section Totals.
Context `{Torch}.

(** [train], split at the division of line 205. *)
Lemma train_run g epoch s :
  exists st s1,
    train_batches g (set_world (net_train (world s)) (add_event EvNetTrain s))
      = Ok st s1 /\
    train g epoch s =
      if decide (total st = 0)%Z then Raise ZeroDivisionError s1
      else
        (tmp_acc ← test g epoch;
         save_if_best g epoch
           (100 * inject_Z (correct st) / inject_Z (total st)) tmp_acc)
          (add_event
             (EvTrainAcc (100 * inject_Z (correct st) / inject_Z (total st))) s1).
Proof.
  destruct (train_batches_run g
              (set_world (net_train (world (add_event EvNetTrain s)))
                 (add_event EvNetTrain s)))
    as (st & s1 & evs & Hrun & _).
  exists st, s1. split; [exact Hrun|].
  unfold train. unfold mbind at 1 2, M_bind at 1 2. unfold emit, call, modify.
  unfold mbind at 1, M_bind at 1. rewrite Hrun.
  unfold mbind at 1, M_bind at 1. unfold percent.
  case_decide; reflexivity.
Qed.

(** With a non-positive [m] a batch is fetched and left untrained. *)
Lemma train_loop_idle g (l : list nat) :
  (m g <= 0)%Z ->
  forall st s, exists w',
    foldM (fun st _ => train_next_batch g st) l st s = Ok st (set_world w' s).
Proof.
  intros Hm. induction l as [|i l IH]; intros st s.
  - exists (world s). now destruct s.
  - cbn [foldM]. unfold mbind at 1, M_bind at 1.
    unfold train_next_batch at 1, train_batch. unfold range.
    rewrite seqZ_nil by lia. cbn [foldM].
    unfold mbind, M_bind, call_ret, mret, M_ret.
    destruct (IH st (set_world (train_next (world s)).2 s)) as [w' Hrun].
    exists w'. exact Hrun.
Qed.

(** With a positive [m] and non-empty batches every batch adds to
    [total]. *)
Lemma train_loop_total g (l : list nat) :
  (0 < m g)%Z ->
  (forall w, targets (train_next w).1 <> []) ->
  forall st s, exists st' s',
    foldM (fun st _ => train_next_batch g st) l st s = Ok st' s' /\
    (total st + Z.of_nat (length l) <= total st')%Z.
Proof.
  intros Hm Hne. induction l as [|i l IH]; intros st s.
  - exists st, s. split; [reflexivity|cbn; lia].
  - cbn [foldM]. unfold mbind at 1, M_bind at 1.
    unfold train_next_batch at 1, train_batch.
    unfold mbind at 1, M_bind at 1. unfold call_ret.
    destruct (inner_loop_run g (train_next (world s)).1 (range 0 (m g)) st
                (set_world (train_next (world s)).2 s))
      as (grads & st1 & s1 & Hrun & _ & _ & _ & _ & _ & _ & Htot).
    rewrite Hrun.
    destruct (IH st1 s1) as (st' & s' & Hrun' & Hle).
    exists st', s'. split; [exact Hrun'|].
    assert (Hlen : (1 <= Z.of_nat (length (range 0 (m g))))%Z).
    { unfold range. rewrite length_seqZ. lia. }
    assert (Htg : (1 <= Z.of_nat (length (targets (train_next (world s)).1)))%Z).
    { specialize (Hne (world s)).
      destruct (targets (train_next (world s)).1); [contradiction|cbn; lia]. }
    cbn [length]. nia.
Qed.

(** When an epoch ends normally: something was trained, something is
    tested, and nothing stands in the way of the checkpoint; then
    nothing stands in the way of the next one either. *)
Lemma train_ok g epoch s :
  (0 < m g)%Z -> (0 < train_len)%nat ->
  (forall w, targets (train_next w).1 <> []) ->
  test_total <> 0%Z ->
  can_write g (fs s) ->
  exists s', train g epoch s = Ok tt s' /\ can_write g (fs s').
Proof.
  intros Hm Hlen Hne Htest Hcw.
  assert (Hnz : forall e, train g epoch s = Raise ZeroDivisionError e -> False).
  { destruct (train_exact g epoch s)
      as (st & s1 & evs1 & Hrun & _ & _ & Hfs & _ & ->).
    unfold train_batches in Hrun. unfold mbind, M_bind, call, modify in Hrun.
    match type of Hrun with foldM _ _ ?st0 ?s0 = _ =>
      destruct (train_loop_total g (seq 0 train_len) Hm Hne st0 s0)
        as (st' & s' & Hrun' & Hle)
    end.
    rewrite Hrun' in Hrun. injection Hrun as -> ->.
    rewrite length_seq in Hle. cbn [total] in Hle.
    rewrite decide_False by lia. cbv zeta. rewrite decide_False by exact Htest.
    intros e Hraise.
    match type of Hraise with save_if_best g epoch ?acc ?tmp ?s2 = _ =>
      pose proof (save_if_best_spec g epoch acc tmp s2) as Hsave
    end.
    cbv zeta in Hsave. rewrite Hraise in Hsave.
    destruct Hsave as (_ & _ & _ & evs & _ & _ & _ & _ & _ & Hif).
    destruct (Qltb _ _); [|now destruct Hif].
    now destruct Hif as (_ & _ & _ & _ & _ & _ & Hz). }
  destruct (train_spec g epoch s) as (evs & _ & _ & _ & Hd & Hpost).
  destruct (train g epoch s) as [[] s'|e s']; cbn [state_of] in Hd.
  - exists s'. split; [reflexivity|].
    destruct Hpost as (acc & tmp_acc & _ & _ & _ & _ & Hif).
    destruct (Qltb (max_acc s) tmp_acc); [|now destruct Hif as (_ & _ & ->)].
    destruct Hif as (_ & _ & _ & Hn). destruct Hcw as (Hname & Hfile & Hdir).
    destruct (Hn Hname) as [Hfiles _].
    split; [exact Hname|]. split.
    + rewrite Hfiles, lookup_insert_ne; [exact Hfile|apply best_path_not_checkpoint].
    + intros Hin. apply Hd, elem_of_union in Hin. destruct Hin as [Hin|Hin].
      * apply elem_of_singleton in Hin. now apply best_path_not_checkpoint in Hin.
      * now apply Hdir.
  - destruct Hpost as (_ & _ & [(-> & _)|(_ & Hn & _)]).
    + now destruct (Hnz s').
    + now destruct Hn.
Qed.

End Totals.

Section Epochs.
Context `{Torch}.

Lemma epoch_loop_cons g epoch epochs s :
  epoch_loop g (epoch :: epochs) s =
  match train g epoch
          (mkState (set_lr (scheduled_lr epoch) (world s)) (fs s) (delta s)
             (max_acc s) (start_epoch s) (log s ++ [EvSetLr (scheduled_lr epoch)]))
  with
  | Ok _ s' => epoch_loop g epochs s'
  | Raise e s' => Raise e s'
  end.
Proof.
  unfold epoch_loop, for_each. cbn [foldM].
  unfold mbind, M_bind. cbn beta. rewrite adjust_learning_rate_run.
  now destruct (train g epoch _) as [[] s'|e s'].
Qed.

(** Under the conditions of [train_ok] the loop runs every epoch of its
    list, and each prints one test accuracy. *)
Lemma epoch_loop_ok g epochs :
  (0 < m g)%Z -> (0 < train_len)%nat ->
  (forall w, targets (train_next w).1 <> []) ->
  test_total <> 0%Z ->
  forall s, can_write g (fs s) -> exists s',
    epoch_loop g epochs s = Ok tt s' /\
    length (test_accs (log s')) =
      (length (test_accs (log s)) + length epochs)%nat.
Proof.
  intros Hm Hlen Hne Htest.
  induction epochs as [|epoch epochs IH]; intros s Hcw.
  - exists s. split; [reflexivity|cbn; lia].
  - rewrite epoch_loop_cons.
    match goal with |- context [train g epoch ?s0] => set (s1 := s0) end.
    destruct (train_ok g epoch s1 Hm Hlen Hne Htest Hcw) as (s2 & Hok & Hcw2).
    destruct (train_spec g epoch s1) as (evs & Hlog & _ & _ & _ & Hpost).
    rewrite Hok in Hlog, Hpost |- *.
    destruct Hpost as (acc & tmp_acc & _ & _ & _ & Ht & _).
    destruct (IH s2 Hcw2) as (s' & Hrun & Hcount).
    exists s'. split; [exact Hrun|].
    rewrite Hcount. cbn [state_of] in Hlog.
    rewrite Hlog, test_accs_app, Ht. subst s1. cbn [log].
    rewrite test_accs_app, !length_app. cbn. lia.
Qed.

(** Nothing is trained when [m] is not positive or the loader yields no
    batch. *)
Lemma train_batches_idle g s :
  (m g <= 0)%Z \/ train_len = 0%nat ->
  exists w', train_batches g s = Ok (mkStats 0 0 0) (set_world w' s).
Proof.
  intros Hidle. unfold train_batches. unfold mbind, M_bind, call, modify.
  destruct Hidle as [Hm|Hlen].
  - destruct (train_loop_idle g (seq 0 train_len) Hm (mkStats 0 0 0)
                (set_world (train_iter (world s)) s)) as [w' Hrun].
    exists w'. exact Hrun.
  - rewrite Hlen. now exists (train_iter (world s)).
Qed.

End Epochs.

(** X4: without --resume, when --m is positive, the training loader
    yields at least one batch, no training batch is empty, the test set
    is not empty and nothing stands in the way of the checkpoint ('best' +
    datasets is a file name, no file is called 'checkpoint', no directory
    is at the path of the checkpoint), the training part of the script
    ends normally after all 27 epochs, each of which printed one PGD-20
    test accuracy; more generally the epoch loop from epoch e to 26 runs
    max(0, 27 - e) epochs. *)
Theorem training_runs_all_epochs `{Torch} (a : Args.t) (w : World) (f : FS) :
  let g := globals a in
  Args.resume a = None ->
  (0 < Args.m a)%Z ->
  (0 < train_len)%nat ->
  (forall w', targets (train_next w').1 <> []) ->
  test_total <> 0%Z ->
  can_write g f ->
  (exists s,
     training g (initial_state g w f) = Ok tt s /\
     length (test_accs (log s)) = 27%nat) /\
  (forall e s0, can_write g (fs s0) -> exists s,
     epoch_loop g (range e 27) s0 = Ok tt s /\
     Z.of_nat (length (test_accs (log s))) =
       (Z.of_nat (length (test_accs (log s0))) + Z.max 0 (27 - e))%Z).
Proof.
  cbv zeta. intros Hr Hm Hlen Hne Htest Hcw.
  assert (Hloop : forall e s0, can_write (globals a) (fs s0) -> exists s,
     epoch_loop (globals a) (range e 27) s0 = Ok tt s /\
     Z.of_nat (length (test_accs (log s))) =
       (Z.of_nat (length (test_accs (log s0))) + Z.max 0 (27 - e))%Z).
  { intros e s0 Hcw0.
    destruct (epoch_loop_ok (globals a) (range e 27) Hm Hlen Hne Htest s0 Hcw0)
      as (s & Hrun & Hcount).
    exists s. split; [exact Hrun|].
    rewrite Hcount. unfold range. rewrite length_seqZ. lia. }
  split; [|exact Hloop].
  rewrite training_run, resume_run. cbn [args globals]. rewrite Hr.
  destruct (Hloop 0%Z (initial_state (globals a) w f) Hcw) as (s & Hrun & Hcount).
  exists s. split; [exact Hrun|]. cbn in Hcount. lia.
Qed.

Lemma training_runs_all_epochs_example :
  Args.resume Toy.args1 = None /\
  (0 < Args.m Toy.args1)%Z /\
  (0 < @train_len Toy.torch)%nat /\
  (forall w' : @World Toy.torch, targets (train_next w').1 <> []) /\
  @test_total Toy.torch <> 0%Z /\
  @can_write Toy.torch (globals Toy.args1) Toy.fs0 /\
  exists s,
    training (globals Toy.args1) (Toy.start Toy.args1) = Ok tt s /\
    length (test_accs (log s)) = 27%nat.
Proof.
  assert (Hm : (0 < Args.m Toy.args1)%Z) by (cbn; lia).
  assert (Hlen : (0 < @train_len Toy.torch)%nat) by (cbn; lia).
  assert (Hne : forall w' : @World Toy.torch, targets (train_next w').1 <> [])
    by (intros w'; discriminate).
  assert (Htest : @test_total Toy.torch <> 0%Z) by (vm_compute; discriminate).
  assert (Hcw : @can_write Toy.torch (globals Toy.args1) Toy.fs0).
  { split; [reflexivity|]. split; [reflexivity|]. apply not_elem_of_empty. }
  split; [reflexivity|]. split; [exact Hm|]. split; [exact Hlen|].
  split; [exact Hne|]. split; [exact Htest|]. split; [exact Hcw|].
  exact (proj1 (@training_runs_all_epochs Toy.torch Toy.args1 0%Z Toy.fs0
                  eq_refl Hm Hlen Hne Htest Hcw)).
Defined.

(** X5: without --resume, when --m is zero or negative, or the training
    loader yields no batch, the script stops in its first epoch with the
    ZeroDivisionError of the training accuracy (line 205): by then it has
    set the learning rate and put the network in training mode, and it
    has evaluated nothing, written nothing and left the buffer at zero. *)
Theorem idle_training_divides_by_zero `{Torch} (a : Args.t) (w : World) (f : FS) :
  Args.resume a = None ->
  (Args.m a <= 0)%Z \/ train_len = 0%nat ->
  exists w',
    main a w f =
    Raise ZeroDivisionError
      (mkState w' f (Tensor.zeros [Args.batch_size a; 3; 32; 32]%Z) 0 0
         [EvSetLr (1 # 10); EvNetTrain]).
Proof.
  intros Hr Hidle.
  rewrite main_run, training_run, resume_run. cbn [args globals]. rewrite Hr.
  cbn [start_epoch initial_state].
  assert (Hrange : range 0 27 = 0%Z :: range 1 27) by reflexivity.
  rewrite Hrange, epoch_loop_cons.
  match goal with |- context [train _ 0 ?s0] => set (s1 := s0) end.
  destruct (train_run (globals a) 0 s1) as (st & s2 & Hrun & ->).
  match type of Hrun with train_batches _ ?s0 = _ =>
    destruct (train_batches_idle (globals a) s0 Hidle) as [w' Hidle']
  end.
  rewrite Hidle' in Hrun. injection Hrun as <- <-.
  exists w'. reflexivity.
Qed.

Lemma idle_training_example :
  Args.resume (Toy.args_of 0 None) = None /\
  ((Args.m (Toy.args_of 0 None) <= 0)%Z \/ @train_len Toy.torch = 0%nat) /\
  exists w',
    @main Toy.torch (Toy.args_of 0 None) 0%Z Toy.fs0 =
    Raise ZeroDivisionError
      (mkState w' Toy.fs0 (Tensor.zeros [1; 3; 32; 32]%Z) 0 0
         [EvSetLr (1 # 10); EvNetTrain]).
Proof.
  assert (Hm : (Args.m (Toy.args_of 0 None) <= 0)%Z) by (cbn; lia).
  split; [reflexivity|]. split; [left; exact Hm|].
  exact (@idle_training_divides_by_zero Toy.torch (Toy.args_of 0 None) 0%Z Toy.fs0
           eq_refl (or_introl Hm)).
Defined.

(** X6: on one batch the inner loop adds max(m, 0) times the batch size
    to [total] (the training accuracy counts every sample once per
    iteration), and it leaves the files, [max_acc] and [start_epoch]
    alone. *)
Theorem train_batch_counts `{Torch} (g : Globals) (b : Batch) (st : Stats) (s : State) :
  exists st' s',
    train_batch g b st s = Ok st' s' /\
    total st' = (total st + Z.max (m g) 0 * Z.of_nat (length (targets b)))%Z /\
    fs s' = fs s /\ max_acc s' = max_acc s /\ start_epoch s' = start_epoch s.
Proof.
  destruct (inner_loop_run g b (range 0 (m g)) st s)
    as (grads & st' & s' & Hrun & _ & _ & _ & Hfs & Hmax & Hse & Htot).
  exists st', s'. split; [exact Hrun|].
  split; [|now repeat split].
  rewrite Htot. unfold range. rewrite length_seqZ. lia.
Qed.

(** ** Accuracies *)

Lemma percent_bounds (c t : Z) :
  (0 <= c <= t)%Z -> t <> 0%Z ->
  0 <= 100 * inject_Z c / inject_Z t /\ 100 * inject_Z c / inject_Z t <= 100.
Proof.
  intros [Hc Hct] Ht.
  assert (Hpos : 0 < inject_Z t) by (unfold Qlt; cbn; lia).
  assert (Hq : 0 <= inject_Z c) by (unfold Qle; cbn; lia).
  assert (Hqt : inject_Z c <= inject_Z t) by (unfold Qle; cbn; lia).
  split.
  - apply Qle_shift_div_l; [exact Hpos|]. lra.
  - apply Qle_shift_div_r; [exact Hpos|]. lra.
Qed.

Section TestCount.
Context `{Torch}.

(** [test_with_run], with the count it divides as the loop's result. *)
Lemma test_with_run_count atk epoch s :
  exists evs w' c,
    foldM (test_batch atk) testloader (0, 0)%Z
      (set_world (net_eval (world (add_event EvNetEval s))) (add_event EvNetEval s))
    = Ok (c, test_total)
        (mkState w' (fs s) (delta s) (max_acc s) (start_epoch s)
           (log s ++ EvNetEval :: evs)) /\
    test_with atk epoch s =
      if decide (test_total = 0)%Z then
        Raise ZeroDivisionError
          (mkState w' (fs s) (delta s) (max_acc s) (start_epoch s)
             (log s ++ EvNetEval :: evs))
      else
        Ok (100 * inject_Z c / inject_Z test_total)
          (mkState w' (fs s) (delta s) (max_acc s) (start_epoch s)
             (log s ++ EvNetEval :: evs ++
                [EvTestAcc epoch (100 * inject_Z c / inject_Z test_total)])).
Proof.
  destruct (test_loop_run atk testloader (0, 0)%Z
              (set_world (net_eval (world (add_event EvNetEval s)))
                 (add_event EvNetEval s)))
    as (evs & w' & c & Hrun & _).
  cbn [fst snd] in Hrun. rewrite Z.add_0_l in Hrun. fold test_total in Hrun.
  cbn [set_world add_event fs delta max_acc start_epoch log] in Hrun.
  rewrite <- app_assoc in Hrun. cbn [app] in Hrun.
  exists evs, w', c. split; [exact Hrun|].
  unfold test_with. unfold mbind at 1 2 3, M_bind at 1 2 3.
  unfold emit, call, modify. rewrite Hrun.
  unfold percent. cbn [fst snd].
  case_decide; run_monad; rewrite <- ?app_assoc; reflexivity.
Qed.

End TestCount.

(** X8: when the library's count of correct predictions of a batch lies
    between 0 and the batch size, a test function either stops with the
    ZeroDivisionError of an empty test set or returns an accuracy between
    0 and 100. *)
Theorem test_accuracy_is_a_percentage `{Torch}
    (atk : Attack) (epoch : Z) (s : State) :
  (forall out tg, (0 <= n_correct out tg <= Z.of_nat (length tg))%Z) ->
  match test_with atk epoch s with
  | Ok acc _ => 0 <= acc /\ acc <= 100
  | Raise e _ => e = ZeroDivisionError /\ test_total = 0%Z
  end.
Proof.
  intros Hlaw.
  destruct (test_with_run_count atk epoch s) as (evs & w' & c & Hfold & ->).
  assert (Hb : (0 <= c <= test_total)%Z).
  { pose proof (hoare_foldM (fun acc _ => (0 <= acc.1 <= acc.2)%Z) (fun _ _ => True)
                  (test_batch atk) testloader) as Hloop.
    match type of Hfold with foldM _ _ ?acc ?s0 = _ =>
      specialize (Hloop
        ltac:(intros acc0 b _ s1 Hacc0; rewrite test_batch_run; cbn [fst snd];
              match goal with |- context [n_correct ?o ?t] =>
                specialize (Hlaw o t) end; lia)
        acc s0 ltac:(cbn; lia))
    end.
    rewrite Hfold in Hloop. exact Hloop. }
  destruct (decide (test_total = 0%Z)) as [Hz|Hnz]; [now split|].
  now apply percent_bounds.
Qed.

Lemma test_accuracy_example :
  (forall (out : @Logits Toy.torch) tg,
     (0 <= n_correct out tg <= Z.of_nat (length tg))%Z) /\
  match @test_with Toy.torch (adversary (globals Toy.args1)) 0 (Toy.start Toy.args1) with
  | Ok acc _ => 0 <= acc /\ acc <= 100
  | Raise e _ => e = ZeroDivisionError /\ @test_total Toy.torch = 0%Z
  end.
Proof.
  assert (Hlaw : forall (out : @Logits Toy.torch) tg,
     (0 <= n_correct out tg <= Z.of_nat (length tg))%Z).
  { intros out tg. cbn. destruct (out.2 <? 2)%Z; lia. }
  split; [exact Hlaw|].
  exact (@test_accuracy_is_a_percentage Toy.torch (adversary (globals Toy.args1)) 0
           (Toy.start Toy.args1) Hlaw).
Defined.

(** ** What the script writes *)

Lemma ckpt_path_not_best r g : ckpt_path r <> best_path g.
Proof. unfold ckpt_path, best_path. cbn. intros Heq. discriminate Heq. Qed.

Lemma append_inj_r (p x y : string) : p +:+ x = p +:+ y -> x = y.
Proof.
  induction p as [|c p IH]; cbn; [auto|].
  intros Heq. injection Heq as Heq. now apply IH.
Qed.

Section Writes.
Context `{Torch}.

(** The final evaluation writes nothing. *)
Lemma final_evaluation_quiet g s :
  exists evs,
    log (state_of (final_evaluation g s)) = log s ++ evs /\
    saves evs = [] /\ fs (state_of (final_evaluation g s)) = fs s.
Proof.
  rewrite final_evaluation_run.
  destruct (files (fs s) !! best_path g) as [ck|].
  2:{ exists [EvLoad (best_path g)]. now repeat split. }
  destruct (decide (test_total = 0%Z)) as [Hz|Hnz].
  - unfold test. rewrite bind_run, test_with_exact, decide_True by exact Hz.
    cbn [state_of log fs]. eexists. rewrite <- app_assoc.
    split; [reflexivity|]. split; [|reflexivity].
    rewrite saves_app.
    change (saves (EvNetEval :: ?l)) with (saves l).
    now rewrite (proj2 (quiet_attack_events _ _ _)).
  - rewrite (final_tests_exact g _ Hnz). cbn [state_of log fs].
    eexists. rewrite <- app_assoc. split; [reflexivity|]. split; [|reflexivity].
    rewrite !saves_app.
    change (saves (EvNetEval :: ?l)) with (saves l).
    now rewrite !(proj2 (quiet_attack_events _ _ _)).
Qed.

Lemma writes_inv_quiet g f s s' evs :
  log s' = log s ++ evs -> saves evs = [] -> fs s' = fs s ->
  writes_inv g f s -> writes_inv g f s'.
Proof.
  intros Hlog Hs Hfs (H1 & H2 & H3 & H4). unfold writes_inv.
  now rewrite Hlog, Hfs, saves_app, Hs, app_nil_r.
Qed.

Lemma writes_inv_train g f epoch : preserves (writes_inv g f) (train g epoch).
Proof.
  intros s (H1 & H2 & H3 & H4).
  destruct (train_spec g epoch s) as (evs & Hlog & Hsv & Hd & _ & Hpost).
  assert (Hall : forall s', log s' = log s ++ evs -> dirs (fs s) ⊆ dirs (fs s') ->
    (saves evs = [] -> files (fs s') = files (fs s)) ->
    (file_name ("best" +:+ Args.datasets (args g)) = true ->
     forall p, p <> best_path g -> files (fs s') !! p = files (fs s) !! p) ->
    writes_inv g f s').
  { intros s' Hl Hds Hf Hp. unfold writes_inv. rewrite Hl, saves_app.
    split; [apply Forall_app; now split|].
    split.
    { intros Heq. apply app_eq_nil in Heq. destruct Heq as [Ha Hb].
      rewrite (Hf Hb). now apply H2. }
    split; [etrans; eassumption|].
    intros Hname p Hne. rewrite (Hp Hname p Hne). now apply H4. }
  destruct (train g epoch s) as [[] s'|e s']; cbn [state_of] in Hlog, Hd.
  - apply Hall; [exact Hlog|exact Hd| |].
    + destruct Hpost as (acc & tmp_acc & _ & _ & _ & _ & Hif).
      destruct (Qltb (max_acc s) tmp_acc).
      * destruct Hif as (_ & -> & _). discriminate.
      * now destruct Hif as (_ & _ & ->).
    + intros Hname p Hne.
      destruct Hpost as (acc & tmp_acc & _ & _ & _ & _ & Hif).
      destruct (Qltb (max_acc s) tmp_acc).
      * destruct Hif as (_ & _ & _ & Hn). destruct (Hn Hname) as [-> _].
        now rewrite lookup_insert_ne.
      * now destruct Hif as (_ & _ & ->).
  - destruct Hpost as (Hf & _). apply Hall; [exact Hlog|exact Hd| |].
    + now intros _.
    + intros _ p _. now rewrite Hf.
Qed.

Lemma writes_inv_script g f : preserves (writes_inv g f) (script g).
Proof.
  unfold script, training.
  apply preserves_bind; [|intros _].
  - apply preserves_bind; [|intros _].
    { intros s Hs. rewrite resume_run.
      destruct (Args.resume (args g)) as [r|]; [|exact Hs].
      destruct (bool_decide _); [|exact Hs].
      destruct (files (fs s) !! ckpt_path r) as [ck|].
      - now apply (writes_inv_quiet g f s _ [EvLoad (ckpt_path r); EvLoadStateDict]).
      - now apply (writes_inv_quiet g f s _ [EvLoad (ckpt_path r)]). }
    apply preserves_bind; [apply preserves_get|intros e].
    apply preserves_foldM. intros _ epoch.
    apply preserves_bind; [|intros _; apply writes_inv_train].
    intros s Hs. rewrite adjust_learning_rate_run.
    now apply (writes_inv_quiet g f s _ [EvSetLr (scheduled_lr epoch)]).
  - intros s Hs.
    destruct (final_evaluation_quiet g s) as (evs & Hlog & Hsv & Hfs).
    pose proof (writes_inv_quiet g f s _ evs Hlog Hsv Hfs Hs) as Hinv.
    now destruct (final_evaluation g s).
Qed.

End Writes.

(** X7: in a whole run of the script, however it ends, every
    [torch.save] is made to './checkpoint/best' + datasets, when there
    was none the files are those the run started with, and no directory
    disappears; when 'best' + datasets is a file name, every other file
    of the directory 'checkpoint' keeps its content, in particular the
    file './checkpoint/ckpt.r' that --resume r reads: the script never
    writes a checkpoint it could resume from. *)
Theorem script_writes_best_only `{Torch} (a : Args.t) (w : World) (f : FS) :
  let g := globals a in
  let s := state_of (main a w f) in
  Forall (fun p => p = best_path g) (saves (log s)) /\
  (saves (log s) = [] -> files (fs s) = files f) /\
  dirs f ⊆ dirs (fs s) /\
  (file_name ("best" +:+ Args.datasets a) = true ->
   (forall r, files (fs s) !! ckpt_path r = files f !! ckpt_path r) /\
   (forall n, file_name n = true -> n <> "best" +:+ Args.datasets a ->
      files (fs s) !! ("./checkpoint/" +:+ n) = files f !! ("./checkpoint/" +:+ n))).
Proof.
  cbv zeta. set (g := globals a).
  assert (HJ : writes_inv g f (state_of (main a w f))).
  { unfold main. apply (preserves_state_of (writes_inv g f) (script g));
      [apply writes_inv_script|].
    unfold writes_inv. cbn. split; [constructor|]. now repeat split. }
  destruct HJ as (H1 & H2 & H3 & H4).
  split; [exact H1|]. split; [exact H2|]. split; [exact H3|].
  intros Hname. split.
  - intros r. apply (H4 Hname), ckpt_path_not_best.
  - intros n _ Hne. apply (H4 Hname).
    intros Heq. apply Hne. now apply (append_inj_r "./checkpoint/").
Qed.

(** ** The values the buffer takes *)

Lemma Forall_zip_with {A B C} (P : C -> Prop) (f : A -> B -> C) l k :
  (forall x y, x ∈ l -> P (f x y)) -> Forall P (zip_with f l k).
Proof.
  revert k. induction l as [|x l IH]; intros [|y k] Hf; cbn; try constructor.
  - apply Hf. left.
  - apply IH. intros x' y' Hin. apply Hf. now right.
Qed.

Lemma clamp1_inverted lo hi a : hi < lo -> Tensor.clamp1 lo hi a = hi.
Proof.
  intros Hlt. unfold Tensor.clamp1, Qmin, GenericMinMax.gmin.
  assert (Hgt : hi < Qmax a lo) by (eapply Qlt_le_trans; [exact Hlt|apply Q.le_max_r]).
  apply Qgt_alt in Hgt. now rewrite Hgt.
Qed.

Lemma next_delta_constant eps d grad : eps < 0 -> constant eps (next_delta eps d grad).
Proof.
  intros Heps. unfold constant, Tensor.all. rewrite next_delta_data.
  apply Forall_zip_with. intros x y _.
  apply (clamp1_inverted (- eps) eps). lra.
Qed.

Lemma constant_unbounded eps d :
  eps < 0 -> constant eps d -> Tensor.data d <> [] -> ~ bounded eps d.
Proof.
  unfold constant, bounded, Tensor.all. intros Heps Hc Hne Hb.
  destruct (Tensor.data d) as [|x l]; [now destruct Hne|].
  apply Forall_cons in Hc, Hb. destruct Hc as [-> _], Hb as [[Hlo _] _]. lra.
Qed.

(** X11: with a negative --epsilon the clamp bounds are inverted
    (-epsilon > epsilon), and every clamp of a run assigns the buffer
    whose elements all are epsilon, which is outside [-epsilon, +epsilon]
    when the buffer has an element; the buffer at the end is that or the
    initial zero buffer. *)
Theorem negative_epsilon_pins_delta `{Torch} (a : Args.t) (w : World) (f : FS) :
  Args.epsilon a < 0 ->
  let s := state_of (main a w f) in
  Forall (delta_event_pinned (Args.epsilon a)) (log s) /\
  (delta s = Tensor.zeros [Args.batch_size a; 3; 32; 32]%Z \/
   constant (Args.epsilon a) (delta s)).
Proof.
  intros Heps. cbv zeta.
  apply and_comm.
  apply (main_holds (fun d l =>
    (d = Tensor.zeros [Args.batch_size a; 3; 32; 32]%Z \/
     constant (Args.epsilon a) d) /\
    Forall (delta_event_pinned (Args.epsilon a)) l)).
  - intros d l e He [Hd Hl]. split; [exact Hd|].
    apply Forall_app. split; [exact Hl|].
    constructor; [now destruct e|constructor].
  - intros d l b grad [Hd Hl].
    pose proof (next_delta_constant (Args.epsilon a) d grad Heps) as Hc.
    split; [now right|].
    apply Forall_app. split; [exact Hl|].
    repeat constructor; [exact Hc|now apply constant_unbounded].
  - split; [now left|constructor].
Qed.

Lemma negative_epsilon_example :
  let a := with_epsilon (-1 # 255) Toy.args1 in
  Args.epsilon a < 0 /\
  let s := state_of (@main Toy.torch a 0%Z Toy.fs0) in
  Forall (delta_event_pinned (Args.epsilon a)) (log s) /\
  (delta s = Tensor.zeros [Args.batch_size a; 3; 32; 32]%Z \/
   constant (Args.epsilon a) (delta s)).
Proof.
  cbv zeta.
  assert (Heps : Args.epsilon (with_epsilon (-1 # 255) Toy.args1) < 0) by reflexivity.
  split; [exact Heps|].
  exact (@negative_epsilon_pins_delta Toy.torch (with_epsilon (-1 # 255) Toy.args1)
           0%Z Toy.fs0 Heps).
Defined.

(** ** Every printed accuracy *)

Section Percentages.
Context `{Torch}.
Hypothesis n_correct_le :
  forall out tg, (0 <= n_correct out tg <= Z.of_nat (length tg))%Z.

Lemma accs_ok_log s s' evs :
  log s' = log s ++ evs -> max_acc s' = max_acc s ->
  Forall acc_event_ok evs -> accs_ok s -> accs_ok s'.
Proof.
  intros Hlog Hmax Hevs [Hl Hm]. unfold accs_ok. rewrite Hlog, Hmax.
  split; [|exact Hm]. apply Forall_app. now split.
Qed.

Lemma accs_ok_emit e :
  acc_event_ok e -> preserves accs_ok (emit e).
Proof.
  intros He s Hs. apply (accs_ok_log s _ [e]); [reflexivity|reflexivity| |exact Hs].
  now constructor.
Qed.

Lemma accs_ok_call op : preserves accs_ok (call op).
Proof. intros s Hs. exact Hs. Qed.

Lemma accs_ok_percent c t :
  counted c t ->
  hoare accs_ok (percent c t) (fun a s => accs_ok s /\ pct a) (fun _ => accs_ok).
Proof.
  intros Hc s Hs. unfold percent. case_decide as Ht; [exact Hs|].
  split; [exact Hs|]. now apply percent_bounds.
Qed.

Lemma accs_ok_inner_step g b st :
  hoare (fun s => accs_ok s /\ counted (correct st) (total st))
    (inner_step g b st)
    (fun st' s => accs_ok s /\ counted (correct st') (total st'))
    (fun _ => accs_ok).
Proof.
  intros s [Hs Hc]. rewrite inner_step_run. split.
  - apply (accs_ok_log s _ (iteration_events (epsilon g) b (delta s) (step_grad b s)));
      [reflexivity|reflexivity| |exact Hs].
    repeat constructor.
  - unfold counted, step_stats in *. cbn [correct total].
    specialize (n_correct_le (step_outputs b s) (targets b)). lia.
Qed.

Lemma accs_ok_train_batches g :
  hoare accs_ok (train_batches g)
    (fun st s => accs_ok s /\ counted (correct st) (total st))
    (fun _ => accs_ok).
Proof.
  unfold train_batches.
  eapply hoare_bind with (Q' := fun _ => accs_ok); [apply accs_ok_call|intros _].
  intros s Hs.
  apply (hoare_foldM (fun st s => accs_ok s /\ counted (correct st) (total st))
           (fun _ => accs_ok) (fun st _ => train_next_batch g st) (seq 0 train_len));
    [|split; [exact Hs|unfold counted; cbn; lia]].
  intros st i _. unfold train_next_batch.
  eapply hoare_bind with (Q' := fun _ s => accs_ok s /\ counted (correct st) (total st)).
  { intros s1 Hs1. exact Hs1. }
  intros b. unfold train_batch.
  apply (hoare_foldM (fun st s => accs_ok s /\ counted (correct st) (total st))
           (fun _ => accs_ok) (fun st _ => inner_step g b st)).
  intros st' i' _. apply accs_ok_inner_step.
Qed.

Lemma accs_ok_test_with atk epoch :
  hoare accs_ok (test_with atk epoch) (fun a s => accs_ok s /\ pct a) (fun _ => accs_ok).
Proof.
  unfold test_with.
  eapply hoare_bind with (Q' := fun _ => accs_ok); [now apply accs_ok_emit|intros _].
  eapply hoare_bind with (Q' := fun _ => accs_ok); [apply accs_ok_call|intros _].
  eapply hoare_bind with (Q' := fun acc s => accs_ok s /\ counted acc.1 acc.2).
  { intros s Hs.
    apply (hoare_foldM (fun acc s => accs_ok s /\ counted acc.1 acc.2)
             (fun _ => accs_ok) (test_batch atk) testloader);
      [|split; [exact Hs|unfold counted; cbn; lia]].
    intros acc b _ s1 [Hs1 Hc]. rewrite test_batch_run. split.
    - eapply (accs_ok_log s1); [reflexivity|reflexivity| |exact Hs1].
      repeat constructor.
    - unfold counted in *. cbn [fst snd].
      match goal with |- context [n_correct ?o ?t] =>
        specialize (n_correct_le o t) end. lia. }
  intros acc.
  eapply hoare_bind with (Q' := fun a s => accs_ok s /\ pct a).
  { intros s [Hs Hc]. now apply accs_ok_percent. }
  intros a.
  eapply hoare_bind with (Q' := fun _ s => accs_ok s /\ pct a).
  { intros s [Hs Ha]. split; [|exact Ha]. now apply (accs_ok_emit (EvTestAcc epoch a)). }
  intros _ s Hs. exact Hs.
Qed.

Lemma accs_ok_save_if_best g epoch acc tmp_acc :
  hoare (fun s => accs_ok s /\ pct tmp_acc) (save_if_best g epoch acc tmp_acc)
    (fun _ => accs_ok) (fun _ => accs_ok).
Proof.
  intros s [[Hl Hm] Ht].
  pose proof (save_if_best_spec g epoch acc tmp_acc s) as Hsave.
  cbv zeta in Hsave.
  destruct Hsave as (_ & _ & _ & evs & Hlog & _ & _ & _ & Hevs & Hif).
  assert (Hok : accs_ok (state_of (save_if_best g epoch acc tmp_acc s))).
  { split.
    - rewrite Hlog. apply Forall_app. split; [exact Hl|].
      eapply Forall_impl; [exact Hevs|]. now intros e [->| ->].
    - destruct (Qltb (max_acc s) tmp_acc).
      + destruct Hif as [-> _]. exact Ht.
      + destruct Hif as [-> _]. exact Hm. }
  now destruct (save_if_best g epoch acc tmp_acc s).
Qed.

Lemma accs_ok_train g epoch : preserves accs_ok (train g epoch).
Proof.
  unfold train.
  eapply hoare_bind with (Q' := fun _ => accs_ok); [now apply accs_ok_emit|intros _].
  eapply hoare_bind with (Q' := fun _ => accs_ok); [apply accs_ok_call|intros _].
  eapply hoare_bind; [apply accs_ok_train_batches|intros st].
  eapply hoare_bind with (Q' := fun a s => accs_ok s /\ pct a).
  { intros s [Hs Hc]. now apply accs_ok_percent. }
  intros acc.
  eapply hoare_bind with (Q' := fun _ => accs_ok).
  { intros s [Hs Ha]. now apply (accs_ok_emit (EvTrainAcc acc)). }
  intros _.
  eapply hoare_bind; [apply accs_ok_test_with|intros tmp_acc].
  apply accs_ok_save_if_best.
Qed.

Lemma accs_ok_script g : preserves accs_ok (script g).
Proof.
  unfold script, training.
  apply preserves_bind; [|intros _].
  - apply preserves_bind; [|intros _].
    { intros s Hs. rewrite resume_run.
      destruct (Args.resume (args g)) as [r|]; [|exact Hs].
      destruct (bool_decide _); [|exact Hs].
      destruct (files (fs s) !! ckpt_path r) as [ck|];
        (eapply (accs_ok_log s); [reflexivity|reflexivity| |exact Hs]);
        repeat constructor. }
    apply preserves_bind; [apply preserves_get|intros e].
    apply preserves_foldM. intros _ epoch.
    apply preserves_bind; [|intros _; apply accs_ok_train].
    intros s Hs. rewrite adjust_learning_rate_run.
    eapply (accs_ok_log s); [reflexivity|reflexivity| |exact Hs].
    repeat constructor.
  - intros s Hs. rewrite final_evaluation_run.
    destruct (files (fs s) !! best_path g) as [ck|].
    + assert (Hs' : accs_ok
        (mkState (net_eval (load_state_dict (ck_net ck) (world s))) (fs s) (delta s)
           (max_acc s) (start_epoch s)
           (log s ++ [EvLoad (best_path g); EvLoadStateDict; EvNetEval]))).
      { eapply (accs_ok_log s); [reflexivity|reflexivity| |exact Hs].
        repeat constructor. }
      revert Hs'. generalize (mkState (net_eval (load_state_dict (ck_net ck) (world s))) (fs s) (delta s)
           (max_acc s) (start_epoch s)
           (log s ++ [EvLoad (best_path g); EvLoadStateDict; EvNetEval])).
      change (preserves accs_ok (test g 111;; test_50 g 111;; test_fgsm g 111;; mret tt)).
      eapply hoare_bind; [apply accs_ok_test_with|intros a1].
      eapply hoare_bind with (Q' := fun a s => accs_ok s /\ pct a);
        [intros s1 [Hs1 _]; now apply accs_ok_test_with|intros a2].
      eapply hoare_bind with (Q' := fun a s => accs_ok s /\ pct a);
        [intros s1 [Hs1 _]; now apply accs_ok_test_with|intros a3].
      intros s1 [Hs1 _]. exact Hs1.
    + eapply (accs_ok_log s); [reflexivity|reflexivity| |exact Hs].
      repeat constructor.
Qed.

End Percentages.

(** X12: when the library's count of correct predictions of a batch lies
    between 0 and the batch size, every training accuracy and every test
    accuracy printed in a run of the script, however it ends, lies
    between 0 and 100, and so does [max_acc]: the counters [correct] and
    [total] of [train] and of the test functions keep
    0 <= correct <= total. *)
Theorem printed_accuracies_are_percentages `{Torch} (a : Args.t) (w : World) (f : FS) :
  (forall out tg, (0 <= n_correct out tg <= Z.of_nat (length tg))%Z) ->
  let s := state_of (main a w f) in
  Forall acc_event_ok (log s) /\ 0 <= max_acc s /\ max_acc s <= 100.
Proof.
  intros Hlaw. cbv zeta. unfold main.
  apply (preserves_state_of accs_ok (script (globals a))).
  - now apply accs_ok_script.
  - split; [constructor|]. cbn. unfold pct. lra.
Qed.

Lemma printed_accuracies_example :
  (forall (out : @Logits Toy.torch) tg,
     (0 <= n_correct out tg <= Z.of_nat (length tg))%Z) /\
  let s := state_of (@main Toy.torch Toy.args1 0%Z Toy.fs0) in
  Forall acc_event_ok (log s) /\ 0 <= max_acc s /\ max_acc s <= 100.
Proof.
  assert (Hlaw : forall (out : @Logits Toy.torch) tg,
     (0 <= n_correct out tg <= Z.of_nat (length tg))%Z).
  { intros out tg. cbn. destruct (out.2 <? 2)%Z; lia. }
  split; [exact Hlaw|].
  exact (@printed_accuracies_are_percentages Toy.torch Toy.args1 0%Z Toy.fs0 Hlaw).
Defined.

(** ** The mode of the network *)

Lemma well_moded_app m l l' :
  well_moded m (l ++ l') <-> well_moded m l /\ well_moded (foldl mode_after m l) l'.
Proof.
  revert m. induction l as [|e l IH]; intros m; cbn; [tauto|].
  rewrite IH. tauto.
Qed.

Section Modes.
Context `{Torch}.

Lemma in_mode_log m m' s s' evs :
  log s' = log s ++ evs ->
  well_moded m evs -> foldl mode_after m evs = m' ->
  in_mode m s -> in_mode m' s'.
Proof.
  intros Hlog Hevs Hm [Hw Hmode]. unfold in_mode, mode in *.
  rewrite Hlog, foldl_app, Hmode. split; [|exact Hm].
  apply well_moded_app. now rewrite Hmode.
Qed.

Lemma in_mode_moded m s : in_mode m s -> moded s.
Proof. now intros [Hw _]. Qed.

Lemma moded_in_mode s : moded s -> in_mode (mode (log s)) s.
Proof. now split. Qed.

(** Events that need no mode and change none keep everything. *)
Lemma moded_log s s' evs :
  log s' = log s ++ evs ->
  Forall (fun e => forall m, mode_ok m e /\ mode_after m e = m) evs ->
  (forall m, in_mode m s -> in_mode m s') /\ (moded s -> moded s').
Proof.
  intros Hlog Hevs.
  assert (Hall : forall m, well_moded m evs /\ foldl mode_after m evs = m).
  { clear Hlog. induction Hevs as [|e evs He _ IH]; intros m; [now split|].
    destruct (He m) as [Hok Hm]. cbn. rewrite Hm. destruct (IH m). now repeat split. }
  assert (Hin : forall m, in_mode m s -> in_mode m s').
  { intros m. now apply (in_mode_log m m s s' evs); [|apply Hall|apply Hall]. }
  split; [exact Hin|].
  intros Hs. eapply in_mode_moded, Hin, moded_in_mode, Hs.
Qed.

Lemma moded_inner_step g b st :
  hoare (in_mode (Some TrainMode)) (inner_step g b st)
    (fun _ => in_mode (Some TrainMode)) (fun _ => moded).
Proof.
  intros s Hs. rewrite inner_step_run.
  apply (in_mode_log (Some TrainMode) _ s _
           (iteration_events (epsilon g) b (delta s) (step_grad b s)));
    [reflexivity| |reflexivity|exact Hs].
  cbn. now repeat split.
Qed.

Lemma moded_train_batches g :
  hoare (in_mode (Some TrainMode)) (train_batches g)
    (fun _ => in_mode (Some TrainMode)) (fun _ => moded).
Proof.
  unfold train_batches.
  eapply hoare_bind with (Q' := fun _ => in_mode (Some TrainMode));
    [intros s Hs; exact Hs|intros _].
  apply (hoare_foldM (fun _ => in_mode (Some TrainMode)) (fun _ => moded)).
  intros st i _. unfold train_next_batch.
  eapply hoare_bind with (Q' := fun _ => in_mode (Some TrainMode));
    [intros s Hs; exact Hs|intros b].
  unfold train_batch.
  apply (hoare_foldM (fun _ => in_mode (Some TrainMode)) (fun _ => moded)).
  intros st' i' _. apply moded_inner_step.
Qed.

Lemma moded_test_with atk epoch :
  hoare moded (test_with atk epoch) (fun _ => in_mode (Some EvalMode)) (fun _ => moded).
Proof.
  unfold test_with.
  eapply hoare_bind with (Q' := fun _ => in_mode (Some EvalMode)).
  { intros s Hs.
    apply (in_mode_log (mode (log s)) _ s _ [EvNetEval]);
      [reflexivity|now split|reflexivity|now apply moded_in_mode]. }
  intros _.
  eapply hoare_bind with (Q' := fun _ => in_mode (Some EvalMode));
    [intros s Hs; exact Hs|intros _].
  eapply hoare_bind with (Q' := fun _ => in_mode (Some EvalMode)).
  { apply (hoare_foldM (fun _ => in_mode (Some EvalMode)) (fun _ => moded)).
    intros acc b _ s Hs. rewrite test_batch_run.
    eapply (in_mode_log (Some EvalMode) _ s); [reflexivity| |reflexivity|exact Hs].
    cbn. now repeat split. }
  intros acc.
  eapply hoare_bind with (Q' := fun _ => in_mode (Some EvalMode)).
  { intros s Hs. unfold percent. case_decide; [now apply in_mode_moded in Hs|exact Hs]. }
  intros a.
  eapply hoare_bind with (Q' := fun _ => in_mode (Some EvalMode)).
  { intros s Hs.
    apply (in_mode_log (Some EvalMode) _ s _ [EvTestAcc epoch a]);
      [reflexivity|now split|reflexivity|exact Hs]. }
  intros _ s Hs. exact Hs.
Qed.

Lemma moded_train g epoch : preserves moded (train g epoch).
Proof.
  unfold train.
  eapply hoare_bind with (Q' := fun _ => in_mode (Some TrainMode)).
  { intros s Hs.
    apply (in_mode_log (mode (log s)) _ s _ [EvNetTrain]);
      [reflexivity|now split|reflexivity|now apply moded_in_mode]. }
  intros _.
  eapply hoare_bind with (Q' := fun _ => in_mode (Some TrainMode));
    [intros s Hs; exact Hs|intros _].
  eapply hoare_bind; [apply moded_train_batches|intros st].
  eapply hoare_bind with (Q' := fun _ => moded).
  { intros s Hs. apply in_mode_moded in Hs. unfold percent. now case_decide. }
  intros acc.
  eapply hoare_bind with (Q' := fun _ => moded).
  { intros s Hs. now apply (moded_log s _ [EvTrainAcc acc]); [|repeat constructor|]. }
  intros _.
  eapply hoare_bind with (Q' := fun _ => moded).
  { intros s Hs. pose proof (moded_test_with (adversary g) epoch s Hs) as Ht.
    unfold test. destruct (test_with _ _ s); [now apply in_mode_moded in Ht|exact Ht]. }
  intros tmp_acc s Hs.
  pose proof (save_if_best_spec g epoch acc tmp_acc s) as Hsave.
  cbv zeta in Hsave.
  destruct Hsave as (_ & _ & _ & evs & Hlog & _ & _ & _ & Hevs & _).
  assert (Hok : moded (state_of (save_if_best g epoch acc tmp_acc s))).
  { apply (moded_log s _ evs); [exact Hlog| |exact Hs].
    eapply Forall_impl; [exact Hevs|]. now intros e [->| ->]. }
  now destruct (save_if_best g epoch acc tmp_acc s).
Qed.

Lemma moded_script g : preserves moded (script g).
Proof.
  unfold script, training.
  apply preserves_bind; [|intros _].
  - apply preserves_bind; [|intros _].
    { intros s Hs. rewrite resume_run.
      destruct (Args.resume (args g)) as [r|]; [|exact Hs].
      destruct (bool_decide _); [|exact Hs].
      destruct (files (fs s) !! ckpt_path r) as [ck|];
        (eapply (moded_log s); [reflexivity| |exact Hs]);
        now repeat constructor. }
    apply preserves_bind; [apply preserves_get|intros e].
    apply preserves_foldM. intros _ epoch.
    apply preserves_bind; [|intros _; apply moded_train].
    intros s Hs. rewrite adjust_learning_rate_run.
    eapply (moded_log s); [reflexivity| |exact Hs].
    now repeat constructor.
  - intros s Hs. rewrite final_evaluation_run.
    destruct (files (fs s) !! best_path g) as [ck|].
    + assert (Hs' : moded
        (mkState (net_eval (load_state_dict (ck_net ck) (world s))) (fs s) (delta s)
           (max_acc s) (start_epoch s)
           (log s ++ [EvLoad (best_path g); EvLoadStateDict; EvNetEval]))).
      { unfold moded. cbn [log]. apply well_moded_app. split; [exact Hs|].
        cbn. now repeat split. }
      revert Hs'.
      generalize (mkState (net_eval (load_state_dict (ck_net ck) (world s))) (fs s)
           (delta s) (max_acc s) (start_epoch s)
           (log s ++ [EvLoad (best_path g); EvLoadStateDict; EvNetEval])).
      change (preserves moded (test g 111;; test_50 g 111;; test_fgsm g 111;; mret tt)).
      assert (Ht : forall atk, preserves moded (test_with atk 111)).
      { intros atk s1 Hs1. pose proof (moded_test_with atk 111 s1 Hs1) as Ht.
        destruct (test_with _ _ s1); [now apply in_mode_moded in Ht|exact Ht]. }
      apply preserves_bind; [apply Ht|intros _].
      apply preserves_bind; [apply Ht|intros _].
      apply preserves_bind; [apply Ht|intros _].
      apply preserves_ret.
    + eapply (moded_log s); [reflexivity| |exact Hs].
      now repeat constructor.
Qed.

End Modes.

(** X13: in a run of the script, however it ends, the calls are
    ordered so that every [optimizer.zero_grad()], [loss.backward()] and
    [optimizer.step()] of the training loop (lines 188-194) comes after
    a [net.train()] with no [net.eval()] since, and every call of
    [perturb] and every test accuracy after a [net.eval()] with no
    [net.train()] since.  (The backward passes an attack makes inside
    [perturb] are not calls of the script; they happen in evaluation
    mode.) *)
Theorem steps_in_training_mode_attacks_in_eval_mode `{Torch}
    (a : Args.t) (w : World) (f : FS) (l1 l2 : list Event) (e : Event) :
  let s := state_of (main a w f) in
  well_moded None (log s) /\
  (log s = l1 ++ e :: l2 ->
   match e with
   | EvZeroGrad | EvBackward _ | EvOptimizerStep => mode l1 = Some TrainMode
   | EvPerturb _ | EvTestAcc _ _ => mode l1 = Some EvalMode
   | _ => True
   end).
Proof.
  cbv zeta.
  assert (Hw : well_moded None (log (state_of (main a w f)))).
  { unfold main. apply (preserves_state_of moded (script (globals a)));
      [apply moded_script|exact Logic.I]. }
  split; [exact Hw|].
  intros Hlog. rewrite Hlog in Hw. apply well_moded_app in Hw.
  destruct Hw as [_ [Hok _]]. exact Hok.
Qed.
